(** * beatbag: the kick-drum generator [generate_kicks.py]

    A shallow embedding of [generate_kick] and of the library calls it makes
    (numpy's array operations, the [wave] writer), followed by the properties
    of the synthesis pipeline and of the PCM container.

    Number model.  numpy computes on IEEE binary64 arrays.  The embedding is
    the real-number idealisation of that arithmetic: a float is a real of
    [R], the elementary functions are the ones of the Standard Library, and
    rounding is not modelled.  Where binary64 leaves the reals on the
    function's own arithmetic (a division by zero, an envelope beyond the
    largest binary64 number) the call has the outcome [NonFinite].  Python
    integers are [Z]; bytes are [Z] in [0, 256). *)

From Stdlib Require Import String Ascii.
From Stdlib Require Import Reals Lra Lia ZArith List Bool.
Import ListNotations.

Local Open Scope R_scope.

(** ** Exceptions and the error monad *)

Inductive exn : Type :=
| ValueError_negative_samples      (* np.linspace: Number of samples must be non-negative *)
| ValueError_negative_dimensions   (* np.random.normal: negative dimensions are not allowed *)
| ValueError_broadcast             (* operands could not be broadcast together *)
| ValueError_empty_reduction       (* zero-size array to reduction operation maximum *)
| WaveError_bad_channels           (* wave.Error: bad # of channels *)
| WaveError_bad_sample_width       (* wave.Error: bad sample width *)
| WaveError_bad_frame_rate         (* wave.Error: bad frame rate *)
| WaveError_cannot_change          (* wave.Error: cannot change parameters after starting to write *)
| WaveError_channels_not_specified (* wave.Error: # channels not specified *)
| WaveError_width_not_specified    (* wave.Error: sample width not specified *)
| WaveError_rate_not_specified     (* wave.Error: sampling rate not specified *)
| StructError_out_of_range         (* struct.error: argument out of range *)
| OSError_open.                    (* OSError: the host refuses to open the file for writing *)

Inductive result (A : Type) : Type :=
| Ok (a : A)
| Raise (e : exn).

Arguments Ok {A} a.
Arguments Raise {A} e.

Definition bind {A B : Type} (m : result A) (k : A -> result B) : result B :=
  match m with
  | Ok a => k a
  | Raise e => Raise e
  end.

Notation "x <- m ;; k" := (bind m (fun x => k))
  (at level 61, m at next level, right associativity).

(** ** Conversions between floats and integers *)

(** [int(x)] on a float, and the C cast behind [astype]: the fractional part
    is dropped, so the result moves toward zero. *)
Definition trunc (x : R) : Z :=
  if Rle_dec 0 x then Int_part x else (- Int_part (- x))%Z.

(** Round half away from zero, the usual "round to nearest"; kept only to
    tell it apart from [trunc]. *)
Definition round_nearest (x : R) : Z :=
  if Rle_dec 0 x then Int_part (x + /2) else (- Int_part (- x + /2))%Z.

(** Two's-complement reduction of an integer to 16 bits. *)
Definition wrap16 (z : Z) : Z := ((z + 32768) mod 65536 - 32768)%Z.

(** ** numpy *)

Module np.

(** [np.linspace(start, stop, num)] with the default [endpoint=True], for
    [num >= 0]: [arange(num) * step + start], the last entry overwritten
    with [stop] when there is more than one. *)
Definition linspace_nat (start stop : R) (num : nat) : list R :=
  let div := (num - 1)%nat in
  let delta := stop - start in
  if (0 <? div)%nat then
    map (fun i => if (i =? div)%nat then stop
                  else INR i * (delta / INR div) + start) (seq 0 num)
  else
    map (fun i => INR i * delta + start) (seq 0 num).

Definition linspace (start stop : R) (num : Z) : result (list R) :=
  if (num <? 0)%Z then Raise ValueError_negative_samples
  else Ok (linspace_nat start stop (Z.to_nat num)).

(** Running sum, [np.cumsum]. *)
Fixpoint cumsum_from (acc : R) (a : list R) : list R :=
  match a with
  | [] => []
  | x :: a' => (acc + x) :: cumsum_from (acc + x) a'
  end.

Definition cumsum (a : list R) : list R := cumsum_from 0 a.

(** Elementwise product of two arrays of the same shape. *)
Definition multiply (a b : list R) : list R :=
  map (fun p => fst p * snd p) (combine a b).

Definition abs (a : list R) : list R := map Rabs a.

(** [np.max]: there is no maximum of an empty array. *)
Definition max (a : list R) : result R :=
  match a with
  | [] => Raise ValueError_empty_reduction
  | x :: a' => Ok (fold_left Rmax a' x)
  end.

(** [np.random.normal(loc, scale, size)]: [size] draws, each the location
    plus the scale times a standard normal deviate.  The deviates the global
    generator hands out during the call are the stream [gauss]. *)
Definition random_normal (gauss : nat -> R) (loc scale : R) (size : Z)
  : result (list R) :=
  if (size <? 0)%Z then Raise ValueError_negative_dimensions
  else Ok (map (fun i => loc + scale * gauss i) (seq 0 (Z.to_nat size))).

(** [a[:k] += b] for [k >= 0].  The slice holds the first [min k (len a)]
    entries; [b] must have that length, or length one (it is then
    broadcast); anything else cannot be broadcast into the slice. *)
Definition iadd_prefix (a : list R) (k : nat) (b : list R) : result (list R) :=
  let n := Nat.min k (length a) in
  if (length b =? n)%nat then
    Ok (map (fun p => fst p + snd p) (combine (firstn n a) b) ++ skipn n a)
  else
    match b with
    | [b0] => Ok (map (fun x => x + b0) (firstn n a) ++ skipn n a)
    | _ => Raise ValueError_broadcast
    end.

(** [x.astype(np.int16)] on one entry: C conversion of a double to a 16-bit
    signed integer.  In range it truncates; out of range the model keeps the
    low 16 bits. *)
Definition astype_int16 (x : R) : Z := wrap16 (trunc x).

(** The two bytes of a 16-bit integer, low byte first. *)
Definition int16_bytes (v : Z) : list Z :=
  let u := (v mod 65536)%Z in [(u mod 256)%Z; (u / 256)%Z].

(** [a.tobytes()] for an int16 array. *)
Definition tobytes (a : list Z) : list Z := flat_map int16_bytes a.

End np.

(** ** The [struct] and [wave] modules *)

Module struct.

(** The [k] bytes of [x], low byte first. *)
Fixpoint le_bytes (k : nat) (x : Z) : list Z :=
  match k with
  | O => []
  | S k' => (x mod 256)%Z :: le_bytes k' (x / 256)%Z
  end.

Fixpoint le_value (b : list Z) : Z :=
  match b with
  | [] => 0%Z
  | x :: b' => (x + 256 * le_value b')%Z
  end.

(** [struct.pack('<L', x)] and [struct.pack('<H', x)]: unsigned, 4 and 2
    bytes; a value that does not fit is an error. *)
Definition pack_L (x : Z) : result (list Z) :=
  if ((0 <=? x) && (x <? 4294967296))%Z then Ok (le_bytes 4 x)
  else Raise StructError_out_of_range.

Definition pack_H (x : Z) : result (list Z) :=
  if ((0 <=? x) && (x <? 65536))%Z then Ok (le_bytes 2 x)
  else Raise StructError_out_of_range.

(** A 4-character tag as bytes ([4s]). *)
Definition tag (s : string) : list Z :=
  map (fun c => Z.of_N (N_of_ascii c)) (list_ascii_of_string s).

End struct.

Module wave.

Definition WAVE_FORMAT_PCM : Z := 1%Z.

(** The state of a [Wave_write] object, as [initfp] sets it up, and the
    bytes of the file it writes to. *)
Record Wave_write : Type := {
  nchannels : Z;
  sampwidth : Z;
  framerate : Z;
  nframes : Z;
  datawritten : Z;
  datalength : Z;
  headerwritten : bool;
  file : list Z
}.

(** [wave.open(filename, 'w')]: the file is created or emptied. *)
Definition open_w : Wave_write :=
  {| nchannels := 0; sampwidth := 0; framerate := 0; nframes := 0;
     datawritten := 0; datalength := 0; headerwritten := false; file := [] |}.

(** A method call: the exception it raises, if any, and the object as the
    call leaves it. *)
Definition action : Type := Wave_write -> option exn * Wave_write.

Definition andthen (a b : action) : action :=
  fun w => match a w with
           | (None, w') => b w'
           | (Some e, w') => (Some e, w')
           end.

Definition setnchannels (n : Z) : action :=
  fun w =>
    if negb (datawritten w =? 0)%Z then (Some WaveError_cannot_change, w)
    else if (n <? 1)%Z then (Some WaveError_bad_channels, w)
    else (None, {| nchannels := n; sampwidth := sampwidth w;
                   framerate := framerate w; nframes := nframes w;
                   datawritten := datawritten w; datalength := datalength w;
                   headerwritten := headerwritten w; file := file w |}).

Definition setsampwidth (n : Z) : action :=
  fun w =>
    if negb (datawritten w =? 0)%Z then (Some WaveError_cannot_change, w)
    else if ((n <? 1) || (4 <? n))%Z then (Some WaveError_bad_sample_width, w)
    else (None, {| nchannels := nchannels w; sampwidth := n;
                   framerate := framerate w; nframes := nframes w;
                   datawritten := datawritten w; datalength := datalength w;
                   headerwritten := headerwritten w; file := file w |}).

Definition setframerate (r : Z) : action :=
  fun w =>
    if negb (datawritten w =? 0)%Z then (Some WaveError_cannot_change, w)
    else if (r <=? 0)%Z then (Some WaveError_bad_frame_rate, w)
    else (None, {| nchannels := nchannels w; sampwidth := sampwidth w;
                   framerate := r; nframes := nframes w;
                   datawritten := datawritten w; datalength := datalength w;
                   headerwritten := headerwritten w; file := file w |}).

(** The fields packed in one call after the tag RIFF:
    [struct.pack('<L4s4sLHHLLHH4s', ...)], 36 bytes. *)
Definition header_fields (w : Wave_write) (datalength : Z) : result (list Z) :=
  riff_len <- struct.pack_L (36 + datalength) ;;
  fmt_len <- struct.pack_L 16 ;;
  format <- struct.pack_H WAVE_FORMAT_PCM ;;
  channels <- struct.pack_H (nchannels w) ;;
  rate <- struct.pack_L (framerate w) ;;
  byte_rate <- struct.pack_L (nchannels w * framerate w * sampwidth w) ;;
  block_align <- struct.pack_H (nchannels w * sampwidth w) ;;
  bits <- struct.pack_H (sampwidth w * 8) ;;
  Ok (riff_len ++ struct.tag "WAVE" ++ struct.tag "fmt "
      ++ fmt_len ++ format ++ channels ++ rate ++ byte_rate ++ block_align
      ++ bits ++ struct.tag "data").

(** The 44 bytes in front of the samples. *)
Definition header (w : Wave_write) (datalength : Z) : result (list Z) :=
  fields <- header_fields w datalength ;;
  data_len <- struct.pack_L datalength ;;
  Ok (struct.tag "RIFF" ++ fields ++ data_len).

Definition set_file (w : Wave_write) (f : list Z) : Wave_write :=
  {| nchannels := nchannels w; sampwidth := sampwidth w;
     framerate := framerate w; nframes := nframes w;
     datawritten := datawritten w; datalength := datalength w;
     headerwritten := headerwritten w; file := f |}.

(** [_write_header(initlength)]: the tag goes out first, the frame count is
    fixed if it was not, then the fields are packed and written. *)
Definition write_header (initlength : Z) : action :=
  fun w =>
    let n := if (nframes w =? 0)%Z
             then (initlength / (nchannels w * sampwidth w))%Z
             else nframes w in
    let d := (n * nchannels w * sampwidth w)%Z in
    let w1 := {| nchannels := nchannels w; sampwidth := sampwidth w;
                 framerate := framerate w; nframes := n;
                 datawritten := datawritten w; datalength := d;
                 headerwritten := false;
                 file := file w ++ struct.tag "RIFF" |} in
    match header_fields w1 d with
    | Raise e => (Some e, w1)
    | Ok fields =>
        let w2 := set_file w1 (file w1 ++ fields) in
        match struct.pack_L d with
        | Raise e => (Some e, w2)
        | Ok data_len =>
            (None, {| nchannels := nchannels w; sampwidth := sampwidth w;
                      framerate := framerate w; nframes := n;
                      datawritten := datawritten w; datalength := d;
                      headerwritten := true;
                      file := file w2 ++ data_len |})
        end
    end.

Definition ensure_header_written (datasize : Z) : action :=
  fun w =>
    if headerwritten w then (None, w)
    else if (nchannels w =? 0)%Z then (Some WaveError_channels_not_specified, w)
    else if (sampwidth w =? 0)%Z then (Some WaveError_width_not_specified, w)
    else if (framerate w =? 0)%Z then (Some WaveError_rate_not_specified, w)
    else write_header datasize w.

(** Overwriting the bytes of [f] from position [pos]. *)
Definition splice (pos : nat) (b f : list Z) : list Z :=
  firstn pos f ++ b ++ skipn (pos + length b) f.

(** [_patchheader]: the two length fields, at offsets 4 and 40 of a file
    that was empty when opened, are rewritten for the bytes written. *)
Definition patchheader : action :=
  fun w =>
    if (datawritten w =? datalength w)%Z then (None, w)
    else
      match struct.pack_L (36 + datawritten w) with
      | Raise e => (Some e, w)
      | Ok riff_len =>
          let w1 := set_file w (splice 4 riff_len (file w)) in
          match struct.pack_L (datawritten w) with
          | Raise e => (Some e, w1)
          | Ok data_len =>
              (None, {| nchannels := nchannels w; sampwidth := sampwidth w;
                        framerate := framerate w; nframes := nframes w;
                        datawritten := datawritten w;
                        datalength := datawritten w;
                        headerwritten := headerwritten w;
                        file := splice 40 data_len (file w1) |})
          end
      end.

Definition writeframesraw (data : list Z) : action :=
  andthen (ensure_header_written (Z.of_nat (length data)))
    (fun w =>
       (None, {| nchannels := nchannels w; sampwidth := sampwidth w;
                 framerate := framerate w; nframes := nframes w;
                 datawritten := (datawritten w + Z.of_nat (length data))%Z;
                 datalength := datalength w;
                 headerwritten := headerwritten w;
                 file := file w ++ data |})).

Definition writeframes (data : list Z) : action :=
  andthen (writeframesraw data) patchheader.

(** [close()]: a header not yet written is written now, for no data. *)
Definition close : action :=
  andthen (ensure_header_written 0) patchheader.

(** [with wave.open(filename, 'w') as wav: body]. Leaving the block calls
    [close], also when the body raised; an exception raised by [close] then
    takes the place of the one the body raised. *)
Definition with_open (body : action) : result Wave_write :=
  match body open_w with
  | (None, w) =>
      match close w with
      | (None, w') => Ok w'
      | (Some e, _) => Raise e
      end
  | (Some e, w) =>
      match close w with
      | (None, _) => Raise e
      | (Some e', _) => Raise e'
      end
  end.

End wave.

(** ** [generate_kick] *)

(** What a call leaves behind. *)
Inductive outcome : Type :=
| Raised (e : exn)            (* an exception left the function before the file was opened *)
| WriteFailed (e : exn)
    (* an exception left the [with wave.open] block: the file was created or
       emptied, the bytes it is left with are not part of the outcome *)
| NonFinite (filename : string)
    (* a division by zero or an overflow of the envelope put NaN or an
       infinity into the samples: a file is written, its sample values depend
       on the platform's cast of them *)
| Wrote (filename : string) (content : list Z).

(** The largest finite binary64 number, [(2 - 2^-52) * 2^1023]. *)
Definition max_float : R := (2 - / 2 ^ 52) * 2 ^ 1023.

Section GenerateKick.

(** The standard normal deviates drawn during the call. *)
Variable gauss : nat -> R.

Variable duration : R.
Variable sample_rate : Z.
Variable base_freq : R.
Variable decay : R.

(** [int(sample_rate * duration)] *)
Definition num_samples : Z := trunc (IZR sample_rate * duration).

(** [t = np.linspace(0, duration, int(sample_rate * duration))] *)
Definition t : result (list R) := np.linspace 0 duration num_samples.

(** [freq = base_freq * np.exp(-t / (duration * 0.1))], at one time and
    on the array. *)
Definition freq_at (ti : R) : R := base_freq * exp (- ti / (duration * 0.1)).

Definition freq (t : list R) : list R := map freq_at t.

(** [phase = 2 * np.pi * np.cumsum(freq) / sample_rate] *)
Definition phase (freq : list R) : list R :=
  map (fun c => 2 * PI * c / IZR sample_rate) (np.cumsum freq).

(** [signal = np.sin(phase)] *)
Definition signal (phase : list R) : list R := map sin phase.

(** [envelope = np.exp(-t / decay)] *)
Definition envelope (t : list R) : list R := map (fun ti => exp (- ti / decay)) t.

(** [kick = signal * envelope] *)
Definition kick (t : list R) : list R :=
  np.multiply (signal (phase (freq t))) (envelope t).

Definition click_duration : R := 0.005.

(** [click_samples = int(sample_rate * click_duration)] *)
Definition click_samples : Z := trunc (IZR sample_rate * click_duration).

(** [noise = np.random.normal(0, 0.3, click_samples)] *)
Definition noise : result (list R) := np.random_normal gauss 0 0.3 click_samples.

(** [click_envelope = np.exp(-np.linspace(0, 10, click_samples))] *)
Definition click_envelope : result (list R) :=
  l <- np.linspace 0 10 click_samples ;; Ok (map (fun x => exp (- x)) l).

(** [click = noise * click_envelope] *)
Definition click : result (list R) :=
  n <- noise ;; e <- click_envelope ;; Ok (np.multiply n e).

(** The buffer after [kick[:click_samples] += click]. *)
Definition kick_click : result (list R) :=
  t <- t ;; c <- click ;; np.iadd_prefix (kick t) (Z.to_nat click_samples) c.

(** [np.max(np.abs(kick))] *)
Definition peak (k : list R) : result R := np.max (np.abs k).

(** [kick = kick / np.max(np.abs(kick))] *)
Definition normalize (k : list R) : result (list R) :=
  p <- peak k ;; Ok (map (fun x => x / p) k).

(** [kick_int = (kick * 32767).astype(np.int16)] *)
Definition kick_int (k : list R) : list Z :=
  map (fun x => np.astype_int16 (x * 32767)) k.

(** The [with wave.open(filename, 'w') as wav] block. *)
Definition write_wav (frames : list Z) : result wave.Wave_write :=
  wave.with_open
    (wave.andthen (wave.setnchannels 1)
       (wave.andthen (wave.setsampwidth 2)
          (wave.andthen (wave.setframerate sample_rate)
             (wave.writeframes (np.tobytes frames))))).

(** Whether some entry of the decay envelope is beyond the largest binary64
    number: [np.exp] gives an infinity there (a negative [decay] makes the
    envelope grow). *)
Definition envelope_overflows : bool :=
  match t with
  | Ok ts => existsb (fun e => if Rlt_dec max_float e then true else false)
                     (envelope ts)
  | Raise _ => false
  end.

(** The samples are finite when, on a non-empty array, neither division met
    a zero divisor ([t / decay] and [kick / peak]) and the envelope stayed
    within the binary64 range. *)
Definition finite (k : list R) : bool :=
  match k with
  | [] => true
  | _ :: _ =>
      if Req_dec_T decay 0 then false
      else if envelope_overflows then false
      else match peak k with
           | Ok p => if Req_dec_T p 0 then false else true
           | Raise _ => true
           end
  end.

(** The call, on a host that lets the file be opened ([generate_kick_on]
    below has the host's refusal). *)
Definition generate_kick (filename : string) : outcome :=
  match (k <- kick_click ;; n <- normalize k ;; Ok (k, n)) with
  | Raise e => Raised e
  | Ok (k, n) =>
      match write_wav (kick_int n) with
      | Raise e => WriteFailed e
      | Ok wav =>
          if finite k then Wrote filename (wave.file wav)
          else NonFinite filename
      end
  end.

End GenerateKick.

(** The four calls at the end of the script (defaults: [duration=0.5],
    [sample_rate=44100]). *)
Definition output_dir : string := "app/src/main/res/raw".

Definition kick1 (gauss : nat -> R) : outcome :=
  generate_kick gauss 0.5 44100 55 0.4 (output_dir ++ "/kick1.wav").
Definition kick2 (gauss : nat -> R) : outcome :=
  generate_kick gauss 0.5 44100 70 0.25 (output_dir ++ "/kick2.wav").
Definition kick3 (gauss : nat -> R) : outcome :=
  generate_kick gauss 0.5 44100 85 0.2 (output_dir ++ "/kick3.wav").
Definition kick4 (gauss : nat -> R) : outcome :=
  generate_kick gauss 0.5 44100 50 0.5 (output_dir ++ "/kick4.wav").

(** The deviates a call takes from the global generator are the first
    [click_samples] of the stream; the next call starts after them. *)
Definition draws_used (sample_rate : Z) : nat := Z.to_nat (click_samples sample_rate).

Definition shift (n : nat) (gauss : nat -> R) : nat -> R := fun i => gauss (n + i)%nat.

(** An uncaught exception ends the script: the calls after it are not run. *)
Definition aborts (o : outcome) : bool :=
  match o with
  | Raised _ | WriteFailed _ => true
  | NonFinite _ | Wrote _ _ => false
  end.

Fixpoint run_calls (calls : list outcome) : list outcome :=
  match calls with
  | [] => []
  | o :: calls' => if aborts o then [o] else o :: run_calls calls'
  end.

(** The module-level code: the four calls in order, drawing from one stream. *)
Definition main (gauss : nat -> R) : list outcome :=
  let gauss2 := shift (draws_used 44100) gauss in
  let gauss3 := shift (draws_used 44100) gauss2 in
  let gauss4 := shift (draws_used 44100) gauss3 in
  run_calls [kick1 gauss; kick2 gauss2; kick3 gauss3; kick4 gauss4].


(** The name a call wrote to, if it wrote. *)
Definition written_name (o : outcome) : option string :=
  match o with
  | Wrote filename _ => Some filename
  | _ => None
  end.

(** ** Reading a file back

    The decoder of the canonical layout the writer produces: the RIFF/WAVE
    header with one [fmt ] chunk and one [data] chunk, then the samples per
    the declared width. *)

Module reader.

Definition take (k : nat) (b : list Z) : option (list Z * list Z) :=
  if (k <=? length b)%nat then Some (firstn k b, skipn k b) else None.

Definition expect (s : string) (b : list Z) : option (list Z) :=
  match take 4 b with
  | Some (x, rest) =>
      if list_eq_dec Z.eq_dec x (struct.tag s) then Some rest else None
  | None => None
  end.

Definition field (k : nat) (b : list Z) : option (Z * list Z) :=
  match take k b with
  | Some (x, rest) => Some (struct.le_value x, rest)
  | None => None
  end.

Notation "' p <- m ;;; k" := (match m with Some p => k | None => None end)
  (at level 61, p pattern, m at next level, right associativity).

(** The declared parameters and the data bytes. *)
Record Wave_read : Type := {
  nchannels : Z;
  sampwidth : Z;
  framerate : Z;
  data : list Z
}.

Definition read (b : list Z) : option Wave_read :=
  ' b <- expect "RIFF" b ;;;
  ' (_, b) <- field 4 b ;;;
  ' b <- expect "WAVE" b ;;;
  ' b <- expect "fmt " b ;;;
  ' (fmt_len, b) <- field 4 b ;;;
  ' (format, b) <- field 2 b ;;;
  ' (channels, b) <- field 2 b ;;;
  ' (rate, b) <- field 4 b ;;;
  ' (_, b) <- field 4 b ;;;
  ' (_, b) <- field 2 b ;;;
  ' (bits, b) <- field 2 b ;;;
  ' b <- expect "data" b ;;;
  ' (data_len, b) <- field 4 b ;;;
  ' (d, _) <- take (Z.to_nat data_len) b ;;;
  if ((fmt_len =? 16) && (format =? wave.WAVE_FORMAT_PCM))%Z then
    Some {| nchannels := channels; sampwidth := ((bits + 7) / 8)%Z;
            framerate := rate; data := d |}
  else None.

(** A 16-bit value as a signed integer. *)
Definition signed16 (u : Z) : Z :=
  if (u <? 32768)%Z then u else (u - 65536)%Z.

(** The little-endian signed 16-bit samples held in the data bytes. *)
Fixpoint samples16 (b : list Z) : list Z :=
  match b with
  | lo :: hi :: b' => signed16 (lo + 256 * hi) :: samples16 b'
  | _ => []
  end.

(** Decoding per the declared header; only mono 16-bit is decoded. *)
Definition decode (b : list Z) : option (Z * list Z) :=
  match read b with
  | Some r =>
      if ((nchannels r =? 1) && (sampwidth r =? 2))%Z
      then Some (framerate r, samples16 (data r))
      else None
  | None => None
  end.

End reader.

(** ** Notions the properties are stated with *)

(** [l] runs from [a] to [b] inclusive in equal steps. *)
Definition evenly_spaced (a b : R) (l : list R) : Prop :=
  (exists step, forall i, (i < length l)%nat -> nth i l 0 = a + INR i * step) /\
  (l <> [] -> nth 0 l 0 = a /\ last l 0 = b).

(** The writer after [setnchannels(1)], [setsampwidth(2)] and
    [setframerate(sample_rate)]. *)
Definition ready (sample_rate : Z) : wave.Wave_write :=
  {| wave.nchannels := 1; wave.sampwidth := 2; wave.framerate := sample_rate;
     wave.nframes := 0; wave.datawritten := 0; wave.datalength := 0;
     wave.headerwritten := false; wave.file := [] |}.

(** The writer when the block is left after [writeframes] of [frames]. *)
Definition written (sample_rate : Z) (frames content : list Z) : wave.Wave_write :=
  {| wave.nchannels := 1; wave.sampwidth := 2; wave.framerate := sample_rate;
     wave.nframes := Z.of_nat (length frames);
     wave.datawritten := 2 * Z.of_nat (length frames);
     wave.datalength := 2 * Z.of_nat (length frames);
     wave.headerwritten := true; wave.file := content |}.

(** The file [write_wav] leaves: the 44-byte header, then the samples. *)
Definition expected_file (sample_rate : Z) (frames : list Z) : list Z :=
  struct.tag "RIFF" ++ struct.le_bytes 4 (36 + 2 * Z.of_nat (length frames))
  ++ struct.tag "WAVE" ++ struct.tag "fmt "
  ++ struct.le_bytes 4 16 ++ struct.le_bytes 2 1 ++ struct.le_bytes 2 1
  ++ struct.le_bytes 4 sample_rate ++ struct.le_bytes 4 (2 * sample_rate)
  ++ struct.le_bytes 2 2 ++ struct.le_bytes 2 16
  ++ struct.tag "data" ++ struct.le_bytes 4 (2 * Z.of_nat (length frames))
  ++ np.tobytes frames.

(** The sum of an array. *)
Definition array_sum (a : list R) : R := fold_right Rplus 0 a.

(** A frame at full scale. *)
Definition holds_peak (q : Z) : bool := (Z.abs q =? 32767)%Z.

(** The number of frames holding +32767 or -32767. *)
Definition peak_frames (frames : list Z) : nat := length (filter holds_peak frames).

(** A draw of the noise that lifts the first two samples of the first call
    to exactly 1, the largest value the enveloped tone can reach. *)
Definition tone1 : list R :=
  kick 0.5 44100 55 0.4 (np.linspace_nat 0 0.5 (Z.to_nat (num_samples 0.5 44100))).

Definition twin_peak_gauss (i : nat) : R :=
  if (i <? 2)%nat then
    (1 - nth i tone1 0)
    / (0.3 * exp (- nth i (np.linspace_nat 0 10 (Z.to_nat (click_samples 44100))) 0))
  else 0.

(** * Properties *)

(** ** Truncation *)

Lemma Int_part_bounds (x : R) : IZR (Int_part x) <= x < IZR (Int_part x) + 1.
Proof. destruct (base_Int_part x); lra. Qed.

Lemma trunc_nonneg (x : R) (z : Z) :
  0 <= x -> IZR z <= x < IZR z + 1 -> trunc x = z.
Proof.
  intros Hx Hz. unfold trunc.
  destruct (Rle_dec 0 x) as [_ | n]; [| contradiction].
  symmetry. apply Int_part_spec. lra.
Qed.

Lemma trunc_neg (x : R) (z : Z) :
  x < 0 -> IZR z - 1 < x <= IZR z -> trunc x = z.
Proof.
  intros Hx Hz. unfold trunc.
  destruct (Rle_dec 0 x) as [Hle | _]; [lra |].
  rewrite <- (Int_part_spec (- x) (- z)); [lia |].
  rewrite opp_IZR. lra.
Qed.

Lemma trunc_IZR (z : Z) : trunc (IZR z) = z.
Proof.
  destruct (Rle_dec 0 (IZR z)) as [H | H].
  - apply trunc_nonneg; lra.
  - apply trunc_neg; lra.
Qed.

(** Truncation moves toward zero and drops less than one unit. *)
Lemma trunc_toward_zero (x : R) :
  (0 <= x -> IZR (trunc x) <= x < IZR (trunc x) + 1 /\ (0 <= trunc x)%Z) /\
  (x <= 0 -> IZR (trunc x) - 1 < x <= IZR (trunc x) /\ (trunc x <= 0)%Z).
Proof.
  unfold trunc. destruct (Rle_dec 0 x) as [H | H]; split; intros H'.
  - pose proof (Int_part_bounds x) as B. split; [exact B |].
    apply le_IZR. apply Rnot_lt_le. intros C.
    assert (IZR (Int_part x) <= -1).
    { apply IZR_le. apply lt_IZR in C. lia. }
    lra.
  - assert (x = 0) by lra. subst x.
    change 0 with (IZR 0). rewrite <- (Int_part_spec (IZR 0) 0) by (simpl; lra).
    simpl. split; [lra | lia].
  - lra.
  - pose proof (Int_part_bounds (- x)) as B. rewrite opp_IZR. split; [lra |].
    assert (0 <= Int_part (- x))%Z; [| lia].
    apply le_IZR. apply Rnot_lt_le. intros C.
    assert (IZR (Int_part (- x)) <= -1).
    { apply IZR_le. apply lt_IZR in C. lia. }
    lra.
Qed.

Lemma trunc_abs_le (x : R) (m : Z) :
  Rabs x <= IZR m -> (- m <= trunc x <= m)%Z.
Proof.
  intros H. destruct (Rle_dec 0 x) as [Hx | Hx].
  - destruct (proj1 (trunc_toward_zero x) Hx) as [B P].
    rewrite Rabs_pos_eq in H by exact Hx.
    assert (IZR (trunc x) <= IZR m) by lra.
    apply le_IZR in H0. lia.
  - assert (Hn : x <= 0) by lra.
    destruct (proj2 (trunc_toward_zero x) Hn) as [B P].
    rewrite Rabs_left in H by lra.
    assert (IZR (- m) <= IZR (trunc x)) by (rewrite opp_IZR; lra).
    apply le_IZR in H0. lia.
Qed.

Lemma wrap16_id (z : Z) : (-32768 <= z < 32768)%Z -> wrap16 z = z.
Proof. intros H. unfold wrap16. rewrite Z.mod_small; lia. Qed.

Lemma wrap16_range (z : Z) : (-32768 <= wrap16 z < 32768)%Z.
Proof.
  unfold wrap16.
  pose proof (Z.mod_pos_bound (z + 32768) 65536 ltac:(lia)). lia.
Qed.

(** ** Arrays *)

Section Arrays.

Lemma nth_map_in {A B : Type} (f : A -> B) (l : list A) (i : nat) (d : B) (d' : A) :
  (i < length l)%nat -> nth i (map f l) d = f (nth i l d').
Proof.
  revert i. induction l as [| x l IH]; intros i Hi; simpl in Hi; [lia |].
  destruct i as [| i]; simpl; [reflexivity | apply IH; lia].
Qed.

Lemma nth_map_seq {B : Type} (f : nat -> B) (n i : nat) (d : B) :
  (i < n)%nat -> nth i (map f (seq 0 n)) d = f i.
Proof.
  intros Hi. rewrite (nth_map_in f _ i d 0%nat) by (rewrite length_seq; exact Hi).
  rewrite seq_nth by exact Hi. reflexivity.
Qed.

Lemma last_nth {A : Type} (l : list A) (d : A) :
  last l d = nth (length l - 1) l d.
Proof.
  induction l as [| x l IH]; [reflexivity |].
  destruct l as [| y l]; [reflexivity |].
  change (last (x :: y :: l) d) with (last (y :: l) d). rewrite IH.
  simpl. rewrite Nat.sub_0_r. reflexivity.
Qed.

Lemma linspace_nat_length (a b : R) (n : nat) :
  length (np.linspace_nat a b n) = n.
Proof.
  unfold np.linspace_nat.
  destruct (0 <? n - 1)%nat; rewrite length_map, length_seq; reflexivity.
Qed.

Lemma linspace_nat_nth (a b : R) (n i : nat) :
  (2 <= n)%nat -> (i < n)%nat ->
  nth i (np.linspace_nat a b n) 0 =
  if (i =? n - 1)%nat then b else INR i * ((b - a) / INR (n - 1)) + a.
Proof.
  intros Hn Hi. unfold np.linspace_nat.
  destruct (Nat.ltb_spec 0 (n - 1)) as [_ | C]; [| lia].
  rewrite nth_map_seq by exact Hi. reflexivity.
Qed.

(** In the reals the overwritten last entry is the one the step gives. *)
Lemma linspace_nat_nth_step (a b : R) (n i : nat) :
  (2 <= n)%nat -> (i < n)%nat ->
  nth i (np.linspace_nat a b n) 0 = a + INR i * ((b - a) / INR (n - 1)).
Proof.
  intros Hn Hi. rewrite linspace_nat_nth by assumption.
  destruct (Nat.eqb_spec i (n - 1)) as [E | _]; [| lra].
  subst i. assert (INR (n - 1) <> 0) by (apply not_0_INR; lia).
  field. assumption.
Qed.

Lemma cumsum_from_length (a : list R) : forall acc,
  length (np.cumsum_from acc a) = length a.
Proof. induction a as [| x a IH]; intros acc; simpl; [| rewrite IH]; reflexivity. Qed.

Lemma cumsum_from_nth_S (a : list R) : forall acc i,
  (S i < length a)%nat ->
  nth (S i) (np.cumsum_from acc a) 0 = nth i (np.cumsum_from acc a) 0 + nth (S i) a 0.
Proof.
  induction a as [| x a IH]; intros acc i Hi; simpl in Hi; [lia |].
  destruct a as [| y a]; simpl in Hi; [lia |].
  destruct i as [| i].
  - reflexivity.
  - change (nth (S i) (np.cumsum_from (acc + x) (y :: a)) 0 =
            nth i (np.cumsum_from (acc + x) (y :: a)) 0 + nth (S i) (y :: a) 0).
    apply IH. simpl. lia.
Qed.

Lemma multiply_length (a b : list R) :
  length (np.multiply a b) = Nat.min (length a) (length b).
Proof. unfold np.multiply. rewrite length_map, length_combine. reflexivity. Qed.

Lemma multiply_nth (a b : list R) (i : nat) :
  (i < length a)%nat -> (i < length b)%nat ->
  nth i (np.multiply a b) 0 = nth i a 0 * nth i b 0.
Proof.
  intros Ha Hb. unfold np.multiply.
  rewrite (nth_map_in _ _ i 0 (0, 0)) by (rewrite length_combine; lia).
  revert b i Ha Hb. induction a as [| x a IH]; intros b i Ha Hb; simpl in Ha; [lia |].
  destruct b as [| y b]; simpl in Hb; [lia |].
  destruct i as [| i]; simpl; [reflexivity | apply IH; lia].
Qed.

End Arrays.

(** ** The maximum and the peak *)

Section Peak.

Lemma fold_max_ge_init (l : list R) : forall x, x <= fold_left Rmax l x.
Proof.
  induction l as [| y l IH]; intros x; simpl; [lra |].
  eapply Rle_trans; [apply (Rmax_l x y) | apply IH].
Qed.

Lemma fold_max_ge_in (l : list R) : forall x y, In y l -> y <= fold_left Rmax l x.
Proof.
  induction l as [| z l IH]; intros x y Hy; simpl in *; [contradiction |].
  destruct Hy as [-> | Hy].
  - eapply Rle_trans; [apply (Rmax_r x y) | apply fold_max_ge_init].
  - apply IH; assumption.
Qed.

Lemma fold_max_in (l : list R) : forall x, In (fold_left Rmax l x) (x :: l).
Proof.
  induction l as [| y l IH]; intros x; simpl; [left; reflexivity |].
  destruct (IH (Rmax x y)) as [E | H].
  - destruct (Rmax_case x y (fun r => r = x \/ r = y)) as [Hx | Hy]; auto.
    + left. congruence.
    + right. left. congruence.
  - right. right. exact H.
Qed.

Lemma max_spec (a : list R) (m : R) :
  np.max a = Ok m -> In m a /\ forall y, In y a -> y <= m.
Proof.
  destruct a as [| x a]; simpl; intros H; [discriminate |].
  injection H as <-. split.
  - apply (fold_max_in a x).
  - intros y [<- | Hy]; [apply fold_max_ge_init | apply fold_max_ge_in; exact Hy].
Qed.

Lemma max_intro (a : list R) (m : R) :
  In m a -> (forall y, In y a -> y <= m) -> np.max a = Ok m.
Proof.
  intros Hin Hub. destruct a as [| x a]; [contradiction |].
  simpl. f_equal. apply Rle_antisym.
  - apply Hub. apply (fold_max_in a x).
  - destruct Hin as [<- | Hin]; [apply fold_max_ge_init | apply fold_max_ge_in; exact Hin].
Qed.

Lemma max_empty_iff (a : list R) :
  np.max a = Raise ValueError_empty_reduction <-> a = [].
Proof. destruct a; simpl; split; intros H; congruence. Qed.

Lemma peak_spec (k : list R) (p : R) :
  peak k = Ok p ->
  0 <= p /\ (exists x, In x k /\ Rabs x = p) /\ forall x, In x k -> Rabs x <= p.
Proof.
  unfold peak, np.abs. intros H. apply max_spec in H. destruct H as [Hin Hub].
  apply in_map_iff in Hin. destruct Hin as [x [E Hx]]. repeat split.
  - rewrite <- E. apply Rabs_pos.
  - exists x. split; assumption.
  - intros y Hy. apply Hub. apply in_map. exact Hy.
Qed.

Lemma peak_nonempty (k : list R) :
  k <> [] -> exists p, peak k = Ok p.
Proof.
  destruct k as [| x k]; [congruence | intros _].
  unfold peak. simpl. eexists. reflexivity.
Qed.

Lemma peak_positive (k : list R) (p : R) :
  peak k = Ok p -> Exists (fun x => x <> 0) k -> 0 < p.
Proof.
  intros Hp Hex. apply peak_spec in Hp. destruct Hp as [_ [_ Hub]].
  apply Exists_exists in Hex. destruct Hex as [x [Hx Hnz]].
  specialize (Hub x Hx). pose proof (Rabs_pos_lt x Hnz). lra.
Qed.

(** Dividing by a positive peak leaves a buffer whose peak is one. *)
Lemma peak_scaled (k : list R) (p : R) :
  peak k = Ok p -> 0 < p -> peak (map (fun x => x / p) k) = Ok 1.
Proof.
  intros Hp Hpos. apply peak_spec in Hp. destruct Hp as [_ [[x [Hx Ex]] Hub]].
  unfold peak, np.abs. apply max_intro.
  - apply in_map_iff. exists (x / p). split.
    + unfold Rdiv. rewrite Rabs_mult, Ex, (Rabs_pos_eq (/ p)).
      * field. lra.
      * left. apply Rinv_0_lt_compat. exact Hpos.
    + apply (in_map (fun x => x / p)). exact Hx.
  - intros y Hy. apply in_map_iff in Hy. destruct Hy as [z [<- Hz]].
    apply in_map_iff in Hz. destruct Hz as [w [<- Hw]].
    unfold Rdiv. rewrite Rabs_mult, (Rabs_pos_eq (/ p)).
    + apply (Rmult_le_reg_r p); [exact Hpos |].
      rewrite Rmult_assoc, Rinv_l, Rmult_1_r, Rmult_1_l by lra.
      apply Hub. exact Hw.
    + left. apply Rinv_0_lt_compat. exact Hpos.
Qed.

Lemma normalized_in_unit (k : list R) (p : R) :
  peak k = Ok p -> 0 < p ->
  forall y, In y (map (fun x => x / p) k) -> -1 <= y <= 1.
Proof.
  intros Hp Hpos y Hy.
  pose proof (peak_scaled k p Hp Hpos) as H1.
  apply peak_spec in H1. destruct H1 as [_ [_ Hub]].
  specialize (Hub y Hy). unfold Rabs in Hub.
  destruct (Rcase_abs y); lra.
Qed.

End Peak.

(** ** The in-place addition on a prefix *)

Section PrefixAdd.

Variables (a b : list R) (k : nat).

Lemma iadd_prefix_length (r : list R) :
  np.iadd_prefix a k b = Ok r -> length r = length a.
Proof.
  unfold np.iadd_prefix.
  destruct (Nat.eqb_spec (length b) (Nat.min k (length a))) as [E | NE].
  - intros H. injection H as <-.
    rewrite length_app, length_map, length_combine, length_firstn, length_skipn. lia.
  - destruct b as [| b0 [| b1 b']]; intros H; try discriminate.
    injection H as <-.
    rewrite length_app, length_map, length_firstn, length_skipn. lia.
Qed.

(** Beyond the slice nothing changes. *)
Lemma iadd_prefix_beyond (r : list R) (i : nat) :
  np.iadd_prefix a k b = Ok r -> (k <= i)%nat -> nth i r 0 = nth i a 0.
Proof.
  unfold np.iadd_prefix. set (n := Nat.min k (length a)).
  intros H Hi.
  assert (Hskip : forall pre : list R, length pre = n ->
            nth i (pre ++ skipn n a) 0 = nth i a 0).
  { intros pre Hpre.
    destruct (Nat.lt_ge_cases i (length a)) as [Hlt | Hge].
    - rewrite app_nth2 by lia. rewrite Hpre.
      rewrite <- (firstn_skipn n a) at 2.
      rewrite app_nth2 by (rewrite length_firstn; lia).
      rewrite length_firstn. f_equal. lia.
    - rewrite !nth_overflow; [reflexivity | lia |].
      rewrite length_app, length_skipn. lia. }
  destruct (Nat.eqb_spec (length b) n) as [E | NE].
  - injection H as <-. apply Hskip.
    rewrite length_map, length_combine, length_firstn. lia.
  - destruct b as [| b0 [| b1 b']]; try discriminate.
    injection H as <-. apply Hskip.
    rewrite length_map, length_firstn. lia.
Qed.

(** Inside the slice the entry of [b] is added to what was there. *)
Lemma iadd_prefix_inside (r : list R) (i : nat) :
  np.iadd_prefix a k b = Ok r -> length b = k ->
  (i < k)%nat -> (i < length a)%nat ->
  nth i r 0 = nth i a 0 + nth i b 0.
Proof.
  unfold np.iadd_prefix. set (n := Nat.min k (length a)).
  intros H Hb Hi Hia.
  assert (Hn : n = k).
  { destruct (Nat.eqb_spec (length b) n) as [E | NE]; [lia |].
    destruct b as [| b0 [| b1 b']]; try discriminate.
    simpl in Hb. subst k. unfold n in *. simpl in NE. lia. }
  assert (Hka : (k <= length a)%nat) by (unfold n in Hn; lia).
  rewrite Hn in H. rewrite Hb, Nat.eqb_refl in H. injection H as <-.
  rewrite app_nth1 by (rewrite length_map, length_combine, length_firstn; lia).
  rewrite (nth_map_in _ _ i 0 (0, 0)) by (rewrite length_combine, length_firstn; lia).
  rewrite combine_nth by (rewrite length_firstn; lia).
  simpl. rewrite nth_firstn.
  destruct (Nat.ltb_spec i k); [reflexivity | lia].
Qed.

(** A click longer than a non-empty buffer cannot be added. *)
Lemma iadd_prefix_too_short :
  length b = k -> (0 < length a < k)%nat ->
  np.iadd_prefix a k b = Raise ValueError_broadcast.
Proof.
  intros Hb Ha. unfold np.iadd_prefix.
  destruct (Nat.eqb_spec (length b) (Nat.min k (length a))) as [E | NE]; [lia |].
  destruct b as [| b0 [| b1 b']]; try reflexivity.
  simpl in Hb. lia.
Qed.

Lemma iadd_prefix_ok :
  length b = k -> (k <= length a)%nat -> exists r, np.iadd_prefix a k b = Ok r.
Proof.
  intros Hb Ha. unfold np.iadd_prefix.
  replace (Nat.min k (length a)) with k by lia.
  rewrite Hb, Nat.eqb_refl. eexists. reflexivity.
Qed.

End PrefixAdd.

(** ** The stages of the pipeline *)

Section ClickStage.

Variable gauss : nat -> R.
Variable sample_rate : Z.

Let cs := click_samples sample_rate.

Lemma click_ok :
  (0 <= cs)%Z ->
  exists c, click gauss sample_rate = Ok c /\ length c = Z.to_nat cs /\
    forall i, (i < Z.to_nat cs)%nat ->
      nth i c 0 = (0 + 0.3 * gauss i)
                  * exp (- nth i (np.linspace_nat 0 10 (Z.to_nat cs)) 0).
Proof.
  intros H. unfold click, noise, click_envelope, np.random_normal, np.linspace.
  fold cs. destruct (Z.ltb_spec cs 0) as [C | _]; [lia |]. simpl.
  eexists. split; [reflexivity |]. split.
  - rewrite multiply_length, !length_map, length_seq, linspace_nat_length. lia.
  - intros i Hi. rewrite multiply_nth.
    + rewrite nth_map_seq by exact Hi.
      rewrite (nth_map_in _ _ i 0 0) by (rewrite linspace_nat_length; exact Hi).
      reflexivity.
    + rewrite length_map, length_seq. exact Hi.
    + rewrite length_map, linspace_nat_length. exact Hi.
Qed.

Lemma click_raise :
  (cs < 0)%Z -> click gauss sample_rate = Raise ValueError_negative_dimensions.
Proof.
  intros H. unfold click, noise, np.random_normal. fold cs.
  destruct (Z.ltb_spec cs 0); [reflexivity | lia].
Qed.

Lemma click_inv (c : list R) :
  click gauss sample_rate = Ok c -> (0 <= cs)%Z /\ length c = Z.to_nat cs.
Proof.
  intros H. destruct (Z.lt_ge_cases cs 0) as [C | C].
  - rewrite click_raise in H by exact C. discriminate.
  - split; [exact C |]. destruct (click_ok C) as [c' [E [L _]]].
    rewrite E in H. injection H as <-. exact L.
Qed.

End ClickStage.

Section Stages.

Variable gauss : nat -> R.
Variable duration : R.
Variable sample_rate : Z.
Variable base_freq : R.
Variable decay : R.

Let N := num_samples duration sample_rate.

Lemma t_ok :
  (0 <= N)%Z ->
  t duration sample_rate = Ok (np.linspace_nat 0 duration (Z.to_nat N)).
Proof.
  intros H. unfold t, np.linspace. fold N.
  destruct (Z.ltb_spec N 0); [lia | reflexivity].
Qed.

Lemma t_raise :
  (N < 0)%Z -> t duration sample_rate = Raise ValueError_negative_samples.
Proof.
  intros H. unfold t, np.linspace. fold N.
  destruct (Z.ltb_spec N 0); [reflexivity | lia].
Qed.

Lemma t_inv (tt : list R) :
  t duration sample_rate = Ok tt ->
  (0 <= N)%Z /\ tt = np.linspace_nat 0 duration (Z.to_nat N).
Proof.
  destruct (Z.lt_ge_cases N 0) as [H | H].
  - rewrite t_raise by exact H. discriminate.
  - rewrite t_ok by exact H. intros E. injection E as <-. split; [exact H | reflexivity].
Qed.

Lemma t_length (tt : list R) :
  t duration sample_rate = Ok tt -> length tt = Z.to_nat N.
Proof.
  intros H. apply t_inv in H. destruct H as [_ ->]. apply linspace_nat_length.
Qed.

Lemma phase_length (f : list R) : length (phase sample_rate f) = length f.
Proof. unfold phase, np.cumsum. rewrite length_map. apply cumsum_from_length. Qed.

Lemma kick_length (tt : list R) :
  length (kick duration sample_rate base_freq decay tt) = length tt.
Proof.
  unfold kick, signal, envelope, freq.
  rewrite multiply_length, !length_map, phase_length, length_map. lia.
Qed.

(** One sample of the enveloped tone. *)
Lemma kick_nth (tt : list R) (i : nat) :
  (i < length tt)%nat ->
  nth i (kick duration sample_rate base_freq decay tt) 0 =
  sin (2 * PI * nth i (np.cumsum (freq duration base_freq tt)) 0 / IZR sample_rate)
  * exp (- nth i tt 0 / decay).
Proof.
  intros Hi. unfold kick.
  rewrite multiply_nth.
  - unfold signal, envelope, phase.
    rewrite (nth_map_in sin _ i 0 0)
      by (rewrite length_map; unfold np.cumsum, freq;
          rewrite cumsum_from_length, length_map; exact Hi).
    rewrite (nth_map_in _ (np.cumsum _) i 0 0)
      by (unfold np.cumsum, freq; rewrite cumsum_from_length, length_map; exact Hi).
    rewrite (nth_map_in _ tt i 0 0) by exact Hi.
    reflexivity.
  - unfold signal, freq. rewrite length_map, phase_length, length_map. exact Hi.
  - unfold envelope. rewrite length_map. exact Hi.
Qed.

Lemma kick_abs_le_1 (tt : list R) (x : R) :
  0 < decay -> (forall ti, In ti tt -> 0 <= ti) ->
  In x (kick duration sample_rate base_freq decay tt) -> Rabs x <= 1.
Proof.
  intros Hd Hpos Hx.
  destruct (In_nth _ _ 0 Hx) as [i [Hi <-]].
  rewrite kick_length in Hi. rewrite kick_nth by exact Hi.
  rewrite Rabs_mult.
  set (s := sin _). set (ti := nth i tt 0).
  assert (Hti : 0 <= ti) by (apply Hpos, nth_In; exact Hi).
  assert (Hs : Rabs s <= 1).
  { pose proof (SIN_bound (2 * PI * nth i (np.cumsum (freq duration base_freq tt)) 0
                           / IZR sample_rate)) as B.
    fold s in B. unfold Rabs. destruct (Rcase_abs s); lra. }
  assert (He : 0 < exp (- ti / decay) <= 1).
  { split; [apply exp_pos |].
    rewrite <- exp_0. 
    destruct (Req_dec ti 0) as [-> | Hnz].
    - right. f_equal. unfold Rdiv. lra.
    - left. apply exp_increasing. unfold Rdiv.
      assert (0 < / decay) by (apply Rinv_0_lt_compat; exact Hd).
      assert (0 < ti * / decay) by (apply Rmult_lt_0_compat; lra).
      lra. }
  rewrite (Rabs_pos_eq (exp _)) by lra.
  pose proof (Rabs_pos s).
  replace 1 with (1 * 1) by lra.
  apply Rmult_le_compat; lra.
Qed.

Lemma kick_click_inv (r : list R) :
  kick_click gauss duration sample_rate base_freq decay = Ok r ->
  exists tt c,
    t duration sample_rate = Ok tt /\ click gauss sample_rate = Ok c /\
    np.iadd_prefix (kick duration sample_rate base_freq decay tt)
      (Z.to_nat (click_samples sample_rate)) c = Ok r.
Proof.
  unfold kick_click.
  destruct (t duration sample_rate) as [tt | e]; simpl; [| discriminate].
  destruct (click gauss sample_rate) as [c | e]; simpl; [| discriminate].
  intros H. exists tt, c. repeat split. exact H.
Qed.

Lemma kick_click_length (r : list R) :
  kick_click gauss duration sample_rate base_freq decay = Ok r ->
  length r = Z.to_nat N.
Proof.
  intros H. apply kick_click_inv in H. destruct H as [tt [c [Ht [_ Hr]]]].
  apply iadd_prefix_length in Hr. rewrite Hr, kick_length. apply t_length. exact Ht.
Qed.

End Stages.

Section Stages2.

Variable gauss : nat -> R.
Variable duration : R.
Variable sample_rate : Z.
Variable base_freq : R.
Variable decay : R.

Let N := num_samples duration sample_rate.
Let cs := click_samples sample_rate.

Lemma linspace_nat_nonneg (b : R) (n : nat) (x : R) :
  0 <= b -> In x (np.linspace_nat 0 b n) -> 0 <= x.
Proof.
  intros Hb Hx. unfold np.linspace_nat in Hx.
  destruct (Nat.ltb_spec 0 (n - 1)) as [Hdiv | Hdiv];
    apply in_map_iff in Hx; destruct Hx as [i [<- Hi]].
  - destruct (i =? n - 1)%nat; [exact Hb |].
    assert (0 < INR (n - 1)) by (apply lt_0_INR; exact Hdiv).
    assert (0 <= (b - 0) / INR (n - 1)).
    { unfold Rdiv. apply Rmult_le_pos; [lra |]. left. apply Rinv_0_lt_compat. assumption. }
    pose proof (pos_INR i). 
    assert (0 <= INR i * ((b - 0) / INR (n - 1))) by (apply Rmult_le_pos; assumption).
    lra.
  - pose proof (pos_INR i).
    assert (0 <= INR i * (b - 0)) by (apply Rmult_le_pos; lra).
    lra.
Qed.

(** The click fits: the in-place addition goes through. *)
Lemma kick_click_ok :
  (0 <= cs <= N)%Z ->
  exists r, kick_click gauss duration sample_rate base_freq decay = Ok r.
Proof.
  intros H. unfold kick_click.
  rewrite t_ok by (fold N; lia). simpl.
  destruct (click_ok gauss sample_rate) as [c [Ec [Lc _]]]; [fold cs; lia |].
  rewrite Ec. simpl. fold cs in Lc |- *.
  apply iadd_prefix_ok; [exact Lc |].
  rewrite kick_length, linspace_nat_length. fold N. lia.
Qed.

(** A non-empty buffer shorter than the click: the addition raises. *)
Lemma kick_click_too_short :
  (0 < N < cs)%Z ->
  kick_click gauss duration sample_rate base_freq decay = Raise ValueError_broadcast.
Proof.
  intros H. unfold kick_click.
  rewrite t_ok by (fold N; lia). simpl.
  destruct (click_ok gauss sample_rate) as [c [Ec [Lc _]]]; [fold cs; lia |].
  rewrite Ec. simpl. fold cs in Lc |- *.
  apply iadd_prefix_too_short; [exact Lc |].
  rewrite kick_length, linspace_nat_length. fold N. lia.
Qed.

(** An empty buffer: whatever the click, no error at the addition unless the
    click has two samples or more, and the buffer stays empty. *)
Lemma kick_click_empty :
  N = 0%Z -> (0 <= cs)%Z ->
  kick_click gauss duration sample_rate base_freq decay =
  if (2 <=? cs)%Z then Raise ValueError_broadcast else Ok [].
Proof.
  intros HN Hcs. unfold kick_click.
  rewrite t_ok by (fold N; lia). fold N. rewrite HN. simpl.
  destruct (click_ok gauss sample_rate) as [c [Ec [Lc _]]]; [fold cs; lia |].
  rewrite Ec. simpl. fold cs in Lc |- *.
  unfold np.iadd_prefix. simpl. rewrite Nat.min_0_r.
  destruct (Z.leb_spec 2 cs) as [C | C].
  - destruct c as [| c0 [| c1 c']]; simpl in Lc; try lia. reflexivity.
  - destruct c as [| c0 [| c1 c']]; simpl in Lc; try lia; reflexivity.
Qed.

End Stages2.

(** ** Concrete sample counts *)

Lemma num_samples_kick1 : num_samples 0.5 44100 = 22050%Z.
Proof. unfold num_samples. apply trunc_nonneg; lra. Qed.

Lemma click_samples_44100 : click_samples 44100 = 220%Z.
Proof. unfold click_samples, click_duration. apply trunc_nonneg; lra. Qed.

Lemma num_samples_zero_duration (sample_rate : Z) : num_samples 0 sample_rate = 0%Z.
Proof. unfold num_samples. rewrite Rmult_0_r. apply (trunc_IZR 0). Qed.

Lemma click_samples_nonneg (sample_rate : Z) :
  (0 <= sample_rate)%Z -> (0 <= click_samples sample_rate)%Z.
Proof.
  intros H. unfold click_samples, click_duration.
  apply (trunc_toward_zero (IZR sample_rate * 0.005)).
  apply IZR_le in H. lra.
Qed.

(** ** Normalization *)

(** C1. For strictly positive duration, sample rate, base frequency and decay,
    when the buffer left by the click stage is not all zero: there is a
    positive [p], the largest absolute value of the buffer and the absolute
    value of one of its samples, such that normalization returns the buffer
    with every sample divided by [p]; in the result no sample exceeds 1 in
    absolute value and one sample has absolute value exactly 1. *)
Theorem normalized_peak_is_one
    (gauss : nat -> R) (duration : R) (sample_rate : Z) (base_freq decay : R)
    (k : list R) :
  0 < duration -> (0 < sample_rate)%Z -> 0 < base_freq -> 0 < decay ->
  kick_click gauss duration sample_rate base_freq decay = Ok k ->
  Exists (fun x => x <> 0) k ->
  exists p n,
    0 < p /\
    (forall x, In x k -> Rabs x <= p) /\
    (exists x, In x k /\ Rabs x = p) /\
    peak k = Ok p /\
    normalize k = Ok n /\
    length n = length k /\
    (forall i, (i < length k)%nat -> nth i n 0 = nth i k 0 / p) /\
    (forall y, In y n -> Rabs y <= 1) /\
    (exists y, In y n /\ Rabs y = 1) /\
    peak n = Ok 1.
Proof.
  intros _ _ _ _ _ Hnz.
  destruct (peak_nonempty k) as [p Hp].
  { intros ->. inversion Hnz. }
  pose proof (peak_positive k p Hp Hnz) as Hpos.
  destruct (peak_spec k p Hp) as [_ [Hatt Hub]].
  pose proof (peak_scaled k p Hp Hpos) as H1.
  destruct (peak_spec _ _ H1) as [_ [Hatt1 Hub1]].
  exists p, (map (fun x => x / p) k).
  split; [exact Hpos |]. split; [exact Hub |]. split; [exact Hatt |].
  split; [exact Hp |].
  split; [unfold normalize; rewrite Hp; reflexivity |].
  split; [apply length_map |].
  split; [intros i Hi; apply (nth_map_in (fun x => x / p) k i 0 0 Hi) |].
  split; [exact Hub1 |]. split; [exact Hatt1 | exact H1].
Qed.

(** ** The click stage *)

(** C5. The click stage adds, it does not replace: a sample below
    [click_samples = int(sample_rate * 0.005)] becomes the enveloped tone
    plus the click sample, every sample at or beyond that index keeps its
    enveloped-tone value, and the length is unchanged. *)
Theorem click_only_touches_prefix
    (gauss : nat -> R) (duration : R) (sample_rate : Z) (base_freq decay : R)
    (tt c r : list R) :
  t duration sample_rate = Ok tt ->
  click gauss sample_rate = Ok c ->
  kick_click gauss duration sample_rate base_freq decay = Ok r ->
  let tone := kick duration sample_rate base_freq decay tt in
  let cs := Z.to_nat (click_samples sample_rate) in
  click_samples sample_rate = trunc (IZR sample_rate * 0.005) /\
  length r = length tone /\
  (forall i, (cs <= i)%nat -> nth i r 0 = nth i tone 0) /\
  (forall i, (i < cs)%nat -> (i < length tone)%nat ->
             nth i r 0 = nth i tone 0 + nth i c 0).
Proof.
  intros Ht Hc Hr tone cs.
  apply kick_click_inv in Hr. destruct Hr as [tt' [c' [Ht' [Hc' Hr]]]].
  rewrite Ht in Ht'. injection Ht' as <-.
  rewrite Hc in Hc'. injection Hc' as <-.
  fold tone cs in Hr.
  apply click_inv in Hc. destruct Hc as [_ Lc]. fold cs in Lc.
  split; [reflexivity |]. split; [| split].
  - eapply iadd_prefix_length. exact Hr.
  - intros i Hi. eapply iadd_prefix_beyond; eassumption.
  - intros i Hi Hl. eapply iadd_prefix_inside; eassumption.
Qed.

(** ** Buffers the click does not fit *)

(** C10. A buffer of positive length shorter than the click: the in-place
    addition cannot broadcast the click into the slice, [generate_kick]
    raises before the output file is opened. *)
Theorem short_buffer_raises
    (gauss : nat -> R) (duration : R) (sample_rate : Z) (base_freq decay : R)
    (filename : string) :
  (0 < num_samples duration sample_rate < click_samples sample_rate)%Z ->
  kick_click gauss duration sample_rate base_freq decay = Raise ValueError_broadcast /\
  generate_kick gauss duration sample_rate base_freq decay filename
  = Raised ValueError_broadcast.
Proof.
  intros H.
  pose proof (kick_click_too_short gauss duration sample_rate base_freq decay H) as E.
  split; [exact E |]. unfold generate_kick. rewrite E. reflexivity.
Qed.

(** The pipeline gets as far as opening the file only when the buffer is
    non-empty and at least as long as the click. *)
Lemma file_opened_needs_room
    (gauss : nat -> R) (duration : R) (sample_rate : Z) (base_freq decay : R)
    (filename : string) :
  (forall e, generate_kick gauss duration sample_rate base_freq decay filename
             <> Raised e) ->
  (0 < num_samples duration sample_rate)%Z /\
  (0 <= click_samples sample_rate <= num_samples duration sample_rate)%Z.
Proof.
  intros Hno.
  set (N := num_samples duration sample_rate).
  set (cs := click_samples sample_rate).
  assert (Hk : exists k, kick_click gauss duration sample_rate base_freq decay = Ok k
                         /\ k <> []).
  { unfold generate_kick in Hno.
    destruct (kick_click gauss duration sample_rate base_freq decay) as [k | e] eqn:E.
    - exists k. split; [reflexivity |]. intros ->.
      apply (Hno ValueError_empty_reduction). reflexivity.
    - exfalso. apply (Hno e). reflexivity. }
  destruct Hk as [k [Hk Hne]].
  pose proof (kick_click_length _ _ _ _ _ _ Hk) as L. fold N in L.
  assert (HN : (0 < N)%Z).
  { destruct k; [congruence |]. simpl in L. lia. }
  split; [exact HN |].
  destruct (kick_click_inv _ _ _ _ _ _ Hk) as [tt [c [_ [Hc _]]]].
  apply click_inv in Hc. destruct Hc as [Hcs _]. fold cs in Hcs.
  split; [exact Hcs |].
  destruct (Z.le_gt_cases cs N) as [Hle | Hgt]; [exact Hle |].
  rewrite kick_click_too_short in Hk by (fold N cs; lia). discriminate.
Qed.

(** ** A zero duration *)

Lemma generate_kick_zero_duration
    (gauss : nat -> R) (sample_rate : Z) (base_freq decay : R) (filename : string) :
  (0 < sample_rate)%Z ->
  t 0 sample_rate = Ok [] /\
  generate_kick gauss 0 sample_rate base_freq decay filename =
  Raised (if (2 <=? click_samples sample_rate)%Z then ValueError_broadcast
          else ValueError_empty_reduction).
Proof.
  intros Hsr.
  pose proof (num_samples_zero_duration sample_rate) as HN.
  split.
  - rewrite t_ok by lia. rewrite HN. reflexivity.
  - unfold generate_kick.
    rewrite kick_click_empty by (try exact HN; apply click_samples_nonneg; lia).
    destruct (2 <=? click_samples sample_rate)%Z; reflexivity.
Qed.

(** C7, as the code has it. With a zero duration and a positive sample rate
    the time axis is empty and [generate_kick] raises before the output file
    is opened: at the click addition when the click has two samples or more,
    otherwise at the maximum of the empty buffer. *)
Theorem zero_duration_raises
    (gauss : nat -> R) (sample_rate : Z) (base_freq decay : R) (filename : string) :
  (0 < sample_rate)%Z ->
  t 0 sample_rate = Ok [] /\
  generate_kick gauss 0 sample_rate base_freq decay filename =
  Raised (if (2 <=? click_samples sample_rate)%Z then ValueError_broadcast
          else ValueError_empty_reduction).
Proof. apply generate_kick_zero_duration. Qed.

(** C7, as stated, fails: at [duration = 0] with the script's sample rate no
    file is written, header-only or other. *)
Lemma zero_duration_writes_nothing :
  generate_kick (fun _ => 0) 0 44100 55 0.4 "kick1.wav" = Raised ValueError_broadcast /\
  ~ exists content,
      generate_kick (fun _ => 0) 0 44100 55 0.4 "kick1.wav" = Wrote "kick1.wav" content.
Proof.
  destruct (generate_kick_zero_duration (fun _ => 0) 44100 55 0.4 "kick1.wav")
    as [_ E]; [lia |].
  rewrite click_samples_44100 in E. simpl in E.
  split; [exact E |]. intros [content C]. rewrite E in C. discriminate.
Qed.

(** ** Quantization *)

Lemma scaled_sample_bound (s : R) : -1 <= s <= 1 -> Rabs (s * 32767) <= IZR 32767.
Proof. intros H. unfold Rabs. destruct (Rcase_abs (s * 32767)); lra. Qed.

Lemma astype_int16_in_unit (s : R) :
  -1 <= s <= 1 ->
  np.astype_int16 (s * 32767) = trunc (s * 32767) /\
  (-32767 <= trunc (s * 32767) <= 32767)%Z.
Proof.
  intros H. pose proof (trunc_abs_le _ _ (scaled_sample_bound s H)) as B.
  split; [| exact B]. unfold np.astype_int16. apply wrap16_id. lia.
Qed.

Lemma le_value_int16_bytes (v : Z) :
  struct.le_value (np.int16_bytes v) = (v mod 65536)%Z.
Proof.
  unfold np.int16_bytes, struct.le_value.
  pose proof (Z.div_mod (v mod 65536) 256 ltac:(lia)). lia.
Qed.

Lemma int16_bytes_range (v : Z) :
  Forall (fun b => (0 <= b < 256)%Z) (np.int16_bytes v).
Proof.
  unfold np.int16_bytes.
  pose proof (Z.mod_pos_bound v 65536 ltac:(lia)) as B.
  repeat constructor.
  - apply Z.mod_pos_bound. lia.
  - apply Z.mod_pos_bound. lia.
  - apply Z.div_pos; lia.
  - apply Z.div_lt_upper_bound; lia.
Qed.

(** The two bytes of a 16-bit sample read back as that sample. *)
Lemma samples16_int16_bytes (v : Z) (rest : list Z) :
  (-32768 <= v < 32768)%Z ->
  reader.samples16 (np.int16_bytes v ++ rest) = v :: reader.samples16 rest.
Proof.
  intros H. unfold np.int16_bytes.
  change (reader.samples16 ([(v mod 65536 mod 256)%Z; (v mod 65536 / 256)%Z] ++ rest))
    with (reader.signed16 (v mod 65536 mod 256 + 256 * (v mod 65536 / 256))
          :: reader.samples16 rest).
  f_equal.
  replace (v mod 65536 mod 256 + 256 * (v mod 65536 / 256))%Z with (v mod 65536)%Z
    by (pose proof (Z.div_mod (v mod 65536) 256 ltac:(lia)); lia).
  unfold reader.signed16.
  destruct (Z_lt_ge_dec v 0) as [Hn | Hp].
  - replace (v mod 65536)%Z with (v + 65536)%Z
      by (apply (Z.mod_unique _ _ (-1)); lia).
    destruct (Z.ltb_spec (v + 65536) 32768); lia.
  - rewrite Z.mod_small by lia.
    destruct (Z.ltb_spec v 32768); lia.
Qed.

(** One sample [s] in [-1, 1]: the conversion gives [trunc(s * 32767)]
    without wrapping, and its two bytes, low byte first, read back as it. *)
Lemma quantize_one_sample (s : R) :
  -1 <= s <= 1 ->
  let q := np.astype_int16 (s * 32767) in
  q = trunc (s * 32767) /\
  (0 <= s -> IZR q <= s * 32767 < IZR q + 1 /\ (0 <= q)%Z) /\
  (s <= 0 -> IZR q - 1 < s * 32767 <= IZR q /\ (q <= 0)%Z) /\
  np.tobytes [q] = [(q mod 65536 mod 256)%Z; (q mod 65536 / 256)%Z] /\
  struct.le_value (np.tobytes [q]) = (q mod 65536)%Z /\
  reader.samples16 (np.tobytes [q]) = [q].
Proof.
  intros H q. destruct (astype_int16_in_unit s H) as [E B].
  unfold q. rewrite E.
  split; [reflexivity |].
  split; [| split; [| split; [| split]]].
  - intros Hs. apply (trunc_toward_zero (s * 32767)). lra.
  - intros Hs. apply (trunc_toward_zero (s * 32767)). lra.
  - reflexivity.
  - unfold np.tobytes. cbn [flat_map]. rewrite app_nil_r. apply le_value_int16_bytes.
  - unfold np.tobytes. cbn [flat_map].
    rewrite samples16_int16_bytes by lia. reflexivity.
Qed.

(** Truncation is not rounding: just below full scale the nearest integer is
    32767 and the quantized sample is 32766; on the negative side the result
    is -32766, toward zero. *)
Lemma quantize_is_not_rounding :
  np.astype_int16 (0.99999 * 32767) = 32766%Z /\
  round_nearest (0.99999 * 32767) = 32767%Z /\
  np.astype_int16 (-0.99999 * 32767) = (-32766)%Z.
Proof.
  assert (T1 : trunc (0.99999 * 32767) = 32766%Z) by (apply trunc_nonneg; lra).
  assert (T2 : trunc (-0.99999 * 32767) = (-32766)%Z) by (apply trunc_neg; lra).
  unfold np.astype_int16. rewrite T1, T2. repeat split.
  unfold round_nearest. destruct (Rle_dec 0 (0.99999 * 32767)) as [_ | C]; [| lra].
  symmetry. apply Int_part_spec. lra.
Qed.

(** C9. After division by a positive peak every quantized sample lies in
    [-32767, 32767]: the conversion to 16 bits never wraps and never gives
    -32768. *)
Theorem quantized_samples_in_range (k : list R) (p : R) :
  peak k = Ok p -> 0 < p ->
  let n := map (fun x => x / p) k in
  normalize k = Ok n /\
  kick_int n = map (fun x => trunc (x * 32767)) n /\
  Forall (fun q => (-32767 <= q <= 32767)%Z) (kick_int n) /\
  ~ In (-32768)%Z (kick_int n).
Proof.
  intros Hp Hpos n.
  assert (Hunit : forall y, In y n -> -1 <= y <= 1)
    by (apply normalized_in_unit; assumption).
  assert (HF : Forall (fun q => (-32767 <= q <= 32767)%Z) (kick_int n)).
  { unfold kick_int. apply Forall_map. apply Forall_forall. intros y Hy.
    destruct (astype_int16_in_unit y (Hunit y Hy)) as [E B]. rewrite E. exact B. }
  split; [unfold normalize; rewrite Hp; reflexivity |].
  split; [| split; [exact HF |]].
  - unfold kick_int. apply map_ext_in. intros y Hy.
    apply (astype_int16_in_unit y (Hunit y Hy)).
  - intros C. rewrite Forall_forall in HF. specialize (HF _ C). lia.
Qed.

(** ** The sweep at one time *)

Lemma freq_at_decreasing (duration base_freq t1 t2 : R) :
  0 < duration -> 0 < base_freq -> t1 < t2 ->
  freq_at duration base_freq t2 < freq_at duration base_freq t1.
Proof.
  intros Hd Hb Ht. unfold freq_at.
  apply Rmult_lt_compat_l; [exact Hb |].
  apply exp_increasing. unfold Rdiv.
  assert (0 < / (duration * 0.1)) by (apply Rinv_0_lt_compat; lra).
  apply Rmult_lt_compat_r; [assumption | lra].
Qed.

Lemma freq_at_0 (duration base_freq : R) : freq_at duration base_freq 0 = base_freq.
Proof.
  unfold freq_at. replace (- 0 / (duration * 0.1)) with 0 by (unfold Rdiv; lra).
  rewrite exp_0. lra.
Qed.

(** ** The time axis *)

Lemma linspace_nat_evenly_spaced (a b : R) (n : nat) :
  (2 <= n)%nat -> evenly_spaced a b (np.linspace_nat a b n).
Proof.
  intros Hn. split.
  - exists ((b - a) / INR (n - 1)). intros i Hi.
    rewrite linspace_nat_length in Hi. apply linspace_nat_nth_step; assumption.
  - intros _. split.
    + rewrite linspace_nat_nth_step by lia. simpl. lra.
    + rewrite last_nth, linspace_nat_length.
      rewrite linspace_nat_nth by lia.
      rewrite Nat.eqb_refl. reflexivity.
Qed.

Lemma linspace_nat_single (a b : R) : np.linspace_nat a b 1 = [a].
Proof. unfold np.linspace_nat. simpl. f_equal. lra. Qed.

Lemma num_samples_is_floor (duration : R) (sample_rate : Z) :
  0 < duration -> (0 < sample_rate)%Z ->
  let N := num_samples duration sample_rate in
  (0 <= N)%Z /\ IZR N <= IZR sample_rate * duration < IZR N + 1.
Proof.
  intros Hd Hsr N. apply IZR_lt in Hsr.
  assert (0 <= IZR sample_rate * duration) by (apply Rmult_le_pos; lra).
  destruct (proj1 (trunc_toward_zero (IZR sample_rate * duration)) H) as [B P].
  split; [exact P | exact B].
Qed.

Lemma normalize_length (k n : list R) :
  normalize k = Ok n -> length n = length k.
Proof.
  unfold normalize. destruct (peak k) as [p | e]; cbn [bind]; intros H;
    [| discriminate].
  injection H as <-. apply length_map.
Qed.

(** C2, as the code has it. For positive duration and sample rate the time
    axis has [N = floor(sample_rate * duration)] entries, and so has every
    buffer of the call: the one the click stage returns, the normalized one
    and the quantized one; with [N >= 2] the entries of the axis run from 0 to
    the duration inclusive in equal steps of [duration / (N - 1)]; with
    [N = 1] the axis is the single time 0. *)
Theorem time_axis_shape
    (gauss : nat -> R) (duration : R) (sample_rate : Z) (base_freq decay : R) :
  0 < duration -> (0 < sample_rate)%Z ->
  let N := num_samples duration sample_rate in
  (0 <= N)%Z /\ IZR N <= IZR sample_rate * duration < IZR N + 1 /\
  exists tt,
    t duration sample_rate = Ok tt /\ length tt = Z.to_nat N /\
    (forall r, kick_click gauss duration sample_rate base_freq decay = Ok r ->
               length r = Z.to_nat N) /\
    (forall r n, kick_click gauss duration sample_rate base_freq decay = Ok r ->
                 normalize r = Ok n ->
                 length n = Z.to_nat N /\ length (kick_int n) = Z.to_nat N) /\
    ((2 <= N)%Z ->
       evenly_spaced 0 duration tt /\
       forall i, (i < Z.to_nat N)%nat ->
                 nth i tt 0 = INR i * (duration / INR (Z.to_nat N - 1))) /\
    (N = 1%Z -> tt = [0]).
Proof.
  intros Hd Hsr N.
  destruct (num_samples_is_floor duration sample_rate Hd Hsr) as [HN HB].
  fold N in HN, HB. split; [exact HN |]. split; [exact HB |].
  exists (np.linspace_nat 0 duration (Z.to_nat N)).
  split; [apply t_ok; exact HN |].
  split; [apply linspace_nat_length |].
  split; [intros r Hr; apply (kick_click_length _ _ _ _ _ _ Hr) |].
  split.
  { intros r n Hr Hn. pose proof (kick_click_length _ _ _ _ _ _ Hr) as L.
    pose proof (normalize_length r n Hn) as Ln. fold N in L.
    split; [lia |]. unfold kick_int. rewrite length_map. lia. }
  split.
  - intros H2. split; [apply linspace_nat_evenly_spaced; lia |].
    intros i Hi. rewrite linspace_nat_nth_step by lia.
    rewrite Rminus_0_r. lra.
  - intros H1. rewrite H1. apply linspace_nat_single.
Qed.

Lemma num_samples_one : num_samples 1.5 1 = 1%Z.
Proof. unfold num_samples. apply trunc_nonneg; lra. Qed.

Lemma click_samples_one : click_samples 1 = 0%Z.
Proof. unfold click_samples, click_duration. apply trunc_nonneg; lra. Qed.

(** C2, as stated, fails on a one-sample axis: at [duration = 1.5] and
    [sample_rate = 1] the axis is the single time 0 and does not reach the
    duration, while a buffer of one sample is produced and normalized. *)
Lemma single_sample_axis_misses_duration :
  0 < 1.5 /\ (0 < 1)%Z /\
  t 1.5 1 = Ok [0] /\
  length [0] = Z.to_nat (num_samples 1.5 1) /\
  kick_click (fun _ => 0) 1.5 1 0.25 0.4 = Ok [1] /\
  normalize [1] = Ok [1] /\
  ~ evenly_spaced 0 1.5 [0].
Proof.
  assert (Ht : t 1.5 1 = Ok [0]).
  { rewrite t_ok by (rewrite num_samples_one; lia).
    rewrite num_samples_one. change (Z.to_nat 1) with 1%nat.
    rewrite linspace_nat_single. reflexivity. }
  split; [lra |]. split; [lia |]. split; [exact Ht |].
  split; [| split; [| split]].
  - rewrite num_samples_one. reflexivity.
  - unfold kick_click. rewrite Ht. cbn [bind].
    unfold click, noise, click_envelope, np.random_normal, np.linspace.
    rewrite click_samples_one. cbn.
    rewrite freq_at_0.
    replace (2 * PI * (0 + 0.25) / 1) with (PI / 2) by lra.
    replace (- 0 / 0.4) with 0 by lra.
    rewrite sin_PI2, exp_0. repeat f_equal. lra.
  - unfold normalize, peak, np.abs, np.max. cbn [map fold_left bind].
    rewrite Rabs_R1. do 2 f_equal. lra.
  - intros [_ H]. destruct H as [_ H]; [discriminate |]. simpl in H. lra.
Qed.

(** ** The frequency sweep *)

Lemma freq_nth (duration base_freq : R) (tt : list R) (i : nat) :
  (i < length tt)%nat ->
  nth i (freq duration base_freq tt) 0 = freq_at duration base_freq (nth i tt 0).
Proof. intros Hi. unfold freq. apply nth_map_in. exact Hi. Qed.

Lemma t_nth (duration : R) (sample_rate : Z) (tt : list R) (i : nat) :
  t duration sample_rate = Ok tt -> (i < length tt)%nat ->
  nth i tt 0 = INR i * (duration / INR (length tt - 1)).
Proof.
  intros Ht Hi. pose proof (t_length _ _ _ Ht) as L.
  apply t_inv in Ht. destruct Ht as [_ E].
  destruct (Nat.le_gt_cases 2 (length tt)) as [H2 | H1].
  - rewrite E at 1. rewrite linspace_nat_nth_step by lia.
    rewrite <- L, Rminus_0_r. lra.
  - assert (length tt = 1%nat) by lia. assert (i = 0%nat) by lia. subst i.
    rewrite E, <- L, H, linspace_nat_single. simpl. lra.
Qed.

(** C3. For positive parameters the sweep frequency at time [t] is
    [base_freq * exp(-t / (duration * 0.1))]: it is [base_freq] at [t = 0]
    and strictly decreasing in [t]; so is the frequency array along the
    time axis. *)
Theorem sweep_frequency
    (duration : R) (sample_rate : Z) (base_freq : R) (tt : list R) :
  0 < duration -> (0 < sample_rate)%Z -> 0 < base_freq ->
  t duration sample_rate = Ok tt ->
  (forall ti, freq_at duration base_freq ti
              = base_freq * exp (- ti / (duration * 0.1))) /\
  freq_at duration base_freq 0 = base_freq /\
  (forall t1 t2, 0 <= t1 < t2 ->
     freq_at duration base_freq t2 < freq_at duration base_freq t1) /\
  (forall t2, 0 < t2 -> freq_at duration base_freq t2 < base_freq) /\
  (forall i, (i < length tt)%nat ->
     nth i (freq duration base_freq tt) 0 = freq_at duration base_freq (nth i tt 0)) /\
  (tt <> [] -> nth 0 (freq duration base_freq tt) 0 = base_freq) /\
  (forall i j, (i < j < length tt)%nat ->
     nth j (freq duration base_freq tt) 0 < nth i (freq duration base_freq tt) 0).
Proof.
  intros Hd Hsr Hb Ht.
  split; [reflexivity |]. split; [apply freq_at_0 |].
  split; [intros t1 t2 H; apply freq_at_decreasing; lra |].
  split.
  { intros t2 H2. rewrite <- (freq_at_0 duration base_freq) at 2.
    apply freq_at_decreasing; lra. }
  split; [intros i Hi; apply freq_nth; exact Hi |].
  split.
  - intros Hne. assert (0 < length tt)%nat by (destruct tt; [congruence | simpl; lia]).
    rewrite freq_nth by assumption.
    rewrite (t_nth _ _ _ 0 Ht) by assumption. simpl.
    rewrite Rmult_0_l. apply freq_at_0.
  - intros i j Hij. rewrite !freq_nth by lia.
    apply freq_at_decreasing; try assumption.
    rewrite (t_nth _ _ _ i Ht), (t_nth _ _ _ j Ht) by lia.
    assert (0 < INR (length tt - 1)) by (apply lt_0_INR; lia).
    assert (0 < duration / INR (length tt - 1)).
    { unfold Rdiv. apply Rmult_lt_0_compat; [exact Hd |].
      apply Rinv_0_lt_compat. assumption. }
    apply Rmult_lt_compat_r; [assumption |]. apply lt_INR. lia.
Qed.

(** ** The container *)

Section Container.

Lemma take_app (a b : list Z) : reader.take (length a) (a ++ b) = Some (a, b).
Proof.
  unfold reader.take. rewrite length_app.
  destruct (Nat.leb_spec (length a) (length a + length b)) as [_ | C]; [| lia].
  rewrite firstn_app, Nat.sub_diag, firstn_all, firstn_O, app_nil_r.
  rewrite skipn_app, Nat.sub_diag, skipn_all, skipn_O. reflexivity.
Qed.

Lemma take_all (a : list Z) : reader.take (length a) a = Some (a, []).
Proof. rewrite <- (app_nil_r a) at 2. apply take_app. Qed.

Lemma le_bytes_length (k : nat) : forall x, length (struct.le_bytes k x) = k.
Proof. induction k as [| k IH]; intros x; simpl; [| rewrite IH]; reflexivity. Qed.

Lemma le_value_le_bytes (k : nat) : forall x,
  (0 <= x < 256 ^ Z.of_nat k)%Z -> struct.le_value (struct.le_bytes k x) = x.
Proof.
  induction k as [| k IH]; intros x Hx.
  - simpl in *. lia.
  - cbn [struct.le_bytes struct.le_value].
    rewrite Nat2Z.inj_succ, Z.pow_succ_r in Hx by lia.
    rewrite IH.
    + pose proof (Z.div_mod x 256 ltac:(lia)). lia.
    + split; [apply Z.div_pos; lia | apply Z.div_lt_upper_bound; lia].
Qed.

Lemma field_le_bytes (k : nat) (x : Z) (rest : list Z) :
  (0 <= x < 256 ^ Z.of_nat k)%Z ->
  reader.field k (struct.le_bytes k x ++ rest) = Some (x, rest).
Proof.
  intros Hx. unfold reader.field.
  rewrite <- (le_bytes_length k x) at 1.
  rewrite take_app, le_value_le_bytes by exact Hx. reflexivity.
Qed.

Lemma expect_tag (s : string) (rest : list Z) :
  length (struct.tag s) = 4%nat ->
  reader.expect s (struct.tag s ++ rest) = Some rest.
Proof.
  intros L. unfold reader.expect. rewrite <- L, take_app.
  destruct (list_eq_dec Z.eq_dec (struct.tag s) (struct.tag s)); congruence.
Qed.

Lemma pack_L_inv (x : Z) (b : list Z) :
  struct.pack_L x = Ok b -> (0 <= x < 256 ^ Z.of_nat 4)%Z /\ b = struct.le_bytes 4 x.
Proof.
  unfold struct.pack_L.
  destruct (Z.leb_spec 0 x); destruct (Z.ltb_spec x 4294967296);
    simpl; intros E; try discriminate.
  injection E as <-. split; [| reflexivity]. change (256 ^ Z.of_nat 4)%Z with 4294967296%Z. lia.
Qed.

Lemma pack_H_inv (x : Z) (b : list Z) :
  struct.pack_H x = Ok b -> (0 <= x < 256 ^ Z.of_nat 2)%Z /\ b = struct.le_bytes 2 x.
Proof.
  unfold struct.pack_H.
  destruct (Z.leb_spec 0 x); destruct (Z.ltb_spec x 65536);
    simpl; intros E; try discriminate.
  injection E as <-. split; [| reflexivity]. change (256 ^ Z.of_nat 2)%Z with 65536%Z. lia.
Qed.

Lemma pack_L_ok (x : Z) :
  (0 <= x < 4294967296)%Z -> struct.pack_L x = Ok (struct.le_bytes 4 x).
Proof.
  intros H. unfold struct.pack_L.
  destruct (Z.leb_spec 0 x); destruct (Z.ltb_spec x 4294967296); simpl; try lia.
  reflexivity.
Qed.

Lemma pack_H_ok (x : Z) :
  (0 <= x < 65536)%Z -> struct.pack_H x = Ok (struct.le_bytes 2 x).
Proof.
  intros H. unfold struct.pack_H.
  destruct (Z.leb_spec 0 x); destruct (Z.ltb_spec x 65536); simpl; try lia.
  reflexivity.
Qed.

Lemma bind_inv {A B : Type} (m : result A) (k : A -> result B) (b : B) :
  bind m k = Ok b -> exists a, m = Ok a /\ k a = Ok b.
Proof. destruct m as [a | e]; simpl; intros H; [eauto | discriminate]. Qed.

Lemma tobytes_length (frames : list Z) :
  length (np.tobytes frames) = (2 * length frames)%nat.
Proof.
  unfold np.tobytes. induction frames as [| q frames IH]; [reflexivity |].
  cbn [flat_map]. rewrite length_app, IH. simpl. lia.
Qed.

Lemma samples16_tobytes (frames : list Z) :
  Forall (fun q => (-32768 <= q < 32768)%Z) frames ->
  reader.samples16 (np.tobytes frames) = frames.
Proof.
  unfold np.tobytes. induction 1 as [| q frames Hq _ IH]; [reflexivity |].
  cbn [flat_map]. rewrite samples16_int16_bytes by exact Hq. rewrite IH. reflexivity.
Qed.

Lemma kick_int_int16 (n : list R) :
  Forall (fun q => (-32768 <= q < 32768)%Z) (kick_int n).
Proof.
  unfold kick_int. apply Forall_map. apply Forall_forall. intros x _.
  apply wrap16_range.
Qed.

End Container.

Lemma pack_L_cases (x : Z) :
  struct.pack_L x = Ok (struct.le_bytes 4 x) \/
  struct.pack_L x = Raise StructError_out_of_range.
Proof. unfold struct.pack_L. destruct (_ && _)%bool; auto. Qed.

Lemma pack_H_cases (x : Z) :
  struct.pack_H x = Ok (struct.le_bytes 2 x) \/
  struct.pack_H x = Raise StructError_out_of_range.
Proof. unfold struct.pack_H. destruct (_ && _)%bool; auto. Qed.

Section Header.

Variable sample_rate : Z.

Lemma header_fields_ok (w : wave.Wave_write) (d : Z) :
  wave.nchannels w = 1%Z -> wave.sampwidth w = 2%Z -> wave.framerate w = sample_rate ->
  (0 < sample_rate)%Z -> (2 * sample_rate < 4294967296)%Z ->
  (0 <= d)%Z -> (36 + d < 4294967296)%Z ->
  wave.header_fields w d =
  Ok (struct.le_bytes 4 (36 + d)
      ++ struct.tag "WAVE" ++ struct.tag "fmt "
      ++ struct.le_bytes 4 16 ++ struct.le_bytes 2 1 ++ struct.le_bytes 2 1
      ++ struct.le_bytes 4 sample_rate ++ struct.le_bytes 4 (2 * sample_rate)
      ++ struct.le_bytes 2 2 ++ struct.le_bytes 2 16
      ++ struct.tag "data").
Proof.
  intros Hc Hw Hr Hsr Hsr2 Hd Hd2. unfold wave.header_fields. rewrite Hc, Hw, Hr.
  unfold wave.WAVE_FORMAT_PCM.
  replace (1 * sample_rate * 2)%Z with (2 * sample_rate)%Z by lia.
  change (1 * 2)%Z with 2%Z. change (2 * 8)%Z with 16%Z.
  rewrite !pack_L_ok, !pack_H_ok by lia.
  cbn [bind]. reflexivity.
Qed.

Lemma header_fields_inv (w : wave.Wave_write) (d : Z) (h : list Z) :
  wave.nchannels w = 1%Z -> wave.sampwidth w = 2%Z -> wave.framerate w = sample_rate ->
  wave.header_fields w d = Ok h ->
  (0 <= sample_rate)%Z /\ (2 * sample_rate < 4294967296)%Z /\
  (36 + d < 4294967296)%Z.
Proof.
  intros Hc Hw Hr. unfold wave.header_fields. rewrite Hc, Hw, Hr.
  replace (1 * sample_rate * 2)%Z with (2 * sample_rate)%Z by lia.
  intros H.
  apply bind_inv in H. destruct H as [b1 [P1 H]]. apply pack_L_inv in P1.
  apply bind_inv in H. destruct H as [b2 [_ H]].
  apply bind_inv in H. destruct H as [b3 [_ H]].
  apply bind_inv in H. destruct H as [b4 [_ H]].
  apply bind_inv in H. destruct H as [b5 [P5 H]]. apply pack_L_inv in P5.
  apply bind_inv in H. destruct H as [b6 [P6 H]]. apply pack_L_inv in P6.
  change (256 ^ Z.of_nat 4)%Z with 4294967296%Z in *. lia.
Qed.

Lemma header_fields_cases (w : wave.Wave_write) (d : Z) :
  (exists h, wave.header_fields w d = Ok h) \/
  wave.header_fields w d = Raise StructError_out_of_range.
Proof.
  unfold wave.header_fields.
  repeat match goal with
         | |- context [bind (struct.pack_L ?x) _] =>
             destruct (pack_L_cases x) as [-> | ->]; cbn [bind]; [| right; reflexivity]
         | |- context [bind (struct.pack_H ?x) _] =>
             destruct (pack_H_cases x) as [-> | ->]; cbn [bind]; [| right; reflexivity]
         end.
  left. eexists. reflexivity.
Qed.

End Header.

Section WriteWav.

Variable sample_rate : Z.
Variable frames : list Z.

Let datalength : Z := (2 * Z.of_nat (length frames))%Z.

Lemma header_fields_params (w w' : wave.Wave_write) (d : Z) :
  wave.nchannels w = wave.nchannels w' -> wave.sampwidth w = wave.sampwidth w' ->
  wave.framerate w = wave.framerate w' ->
  wave.header_fields w d = wave.header_fields w' d.
Proof. intros Hc Hw Hr. unfold wave.header_fields. rewrite Hc, Hw, Hr. reflexivity. Qed.

Lemma patchheader_noop (w : wave.Wave_write) :
  wave.datawritten w = wave.datalength w -> wave.patchheader w = (None, w).
Proof. intros H. unfold wave.patchheader. rewrite H, Z.eqb_refl. reflexivity. Qed.

Lemma close_written (w : wave.Wave_write) :
  wave.headerwritten w = true -> wave.datawritten w = wave.datalength w ->
  wave.close w = (None, w).
Proof.
  intros Hh Hd. unfold wave.close, wave.andthen, wave.ensure_header_written.
  rewrite Hh. apply patchheader_noop. exact Hd.
Qed.

(** [close] on a writer whose header could not be packed: the same fields
    are packed again and fail the same way. *)
Lemma close_after_failed_header (w : wave.Wave_write) (n : Z) (f : list Z) (e : exn) :
  (0 < sample_rate)%Z ->
  w = {| wave.nchannels := 1; wave.sampwidth := 2; wave.framerate := sample_rate;
         wave.nframes := n; wave.datawritten := 0;
         wave.datalength := n * 1 * 2; wave.headerwritten := false;
         wave.file := f |} ->
  (wave.header_fields (ready sample_rate) (n * 1 * 2) = Raise e \/
   (exists fields, wave.header_fields (ready sample_rate) (n * 1 * 2) = Ok fields) /\
   struct.pack_L (n * 1 * 2) = Raise e) ->
  exists w', wave.close w = (Some e, w').
Proof.
  intros Hsr -> Hfail.
  unfold wave.close, wave.andthen, wave.ensure_header_written, wave.write_header.
  cbn [wave.nchannels wave.sampwidth wave.framerate wave.nframes
       wave.datawritten wave.datalength wave.headerwritten wave.file Z.eqb].
  destruct (Z.eqb_spec sample_rate 0) as [C | _]; [lia |].
  assert (En : (if (n =? 0)%Z then (0 / (1 * 2))%Z else n) = n).
  { destruct (Z.eqb_spec n 0) as [-> | _]; reflexivity. }
  rewrite En.
  rewrite (header_fields_params _ (ready sample_rate)) by reflexivity.
  destruct Hfail as [HF | [[fields HF] HP]]; rewrite HF.
  - eexists. reflexivity.
  - rewrite HP. eexists. reflexivity.
Qed.

(** The block, step by step, for a positive rate: the header is packed
    once; when that fails, [close] packs it again and fails the same way. *)
Lemma write_wav_steps :
  (0 < sample_rate)%Z ->
  write_wav sample_rate frames =
  match wave.header_fields (ready sample_rate) datalength with
  | Raise e => Raise e
  | Ok fields =>
      match struct.pack_L datalength with
      | Raise e => Raise e
      | Ok data_len =>
          Ok (written sample_rate frames
                (struct.tag "RIFF" ++ fields ++ data_len ++ np.tobytes frames))
      end
  end.
Proof.
  intros Hsr.
  assert (Hq : (Z.of_nat (length (np.tobytes frames)) / (1 * 2) = Z.of_nat (length frames))%Z).
  { rewrite tobytes_length, Nat2Z.inj_mul. change (Z.of_nat 2) with 2%Z.
    change (1 * 2)%Z with 2%Z. rewrite Z.mul_comm. apply Z.div_mul. lia. }
  assert (Hd : (Z.of_nat (length frames) * 1 * 2 = datalength)%Z)
    by (unfold datalength; lia).
  assert (Hw : (0 + Z.of_nat (length (np.tobytes frames)) = datalength)%Z)
    by (rewrite tobytes_length; unfold datalength; lia).
  unfold write_wav, wave.with_open, wave.andthen, wave.setnchannels,
    wave.setsampwidth, wave.setframerate, wave.writeframes, wave.writeframesraw,
    wave.andthen, wave.ensure_header_written, wave.write_header, wave.open_w.
  cbn [wave.nchannels wave.sampwidth wave.framerate wave.nframes
       wave.datawritten wave.datalength wave.headerwritten wave.file
       Z.eqb Z.ltb Z.compare Pos.compare Pos.compare_cont negb orb app].
  destruct (Z.leb_spec sample_rate 0) as [C | _]; [lia |].
  cbn [wave.nchannels wave.sampwidth wave.framerate wave.nframes
       wave.datawritten wave.datalength wave.headerwritten wave.file
       Z.eqb negb orb app].
  destruct (Z.eqb_spec sample_rate 0) as [C | _]; [lia |].
  rewrite Hq.
  rewrite (header_fields_params _ (ready sample_rate)) by reflexivity.
  destruct (wave.header_fields (ready sample_rate)
              (Z.of_nat (length frames) * 1 * 2)) as [fields | e] eqn:HF.
  - destruct (struct.pack_L (Z.of_nat (length frames) * 1 * 2))
      as [data_len | e] eqn:HP.
    + rewrite <- Hd, HF, HP.
      cbn [wave.nchannels wave.sampwidth wave.framerate wave.nframes
           wave.datawritten wave.datalength wave.headerwritten wave.file
           wave.set_file].
      rewrite patchheader_noop by (cbn [wave.datawritten wave.datalength]; lia).
      rewrite close_written by (cbn [wave.headerwritten wave.datawritten
                                     wave.datalength]; try reflexivity; lia).
      unfold written. rewrite Hw, Hd. unfold datalength.
      rewrite <- !app_assoc. reflexivity.
    + rewrite <- Hd, HF, HP.
      cbn [wave.nchannels wave.sampwidth wave.framerate wave.nframes
           wave.datawritten wave.datalength wave.headerwritten wave.file
           wave.set_file].
      match goal with
      | |- context [wave.close ?w] =>
          destruct (close_after_failed_header w (Z.of_nat (length frames)) _ e
                      Hsr eq_refl (or_intror (conj (ex_intro _ fields HF) HP)))
            as [w' Hc]
      end.
      rewrite Hc. reflexivity.
  - rewrite <- Hd, HF.
    match goal with
    | |- context [wave.close ?w] =>
        destruct (close_after_failed_header w (Z.of_nat (length frames)) _ e
                    Hsr eq_refl (or_introl HF))
          as [w' Hc]
    end.
    rewrite Hc. reflexivity.
Qed.

Lemma write_wav_bad_rate :
  (sample_rate <= 0)%Z ->
  write_wav sample_rate frames = Raise WaveError_rate_not_specified.
Proof.
  intros H.
  unfold write_wav, wave.with_open, wave.andthen, wave.setnchannels,
    wave.setsampwidth, wave.setframerate, wave.open_w.
  cbn [wave.nchannels wave.sampwidth wave.framerate wave.nframes
       wave.datawritten wave.datalength wave.headerwritten wave.file
       Z.eqb Z.ltb Z.compare Pos.compare Pos.compare_cont negb orb].
  destruct (Z.leb_spec sample_rate 0) as [_ | C]; [reflexivity | lia].
Qed.

Lemma write_wav_ok :
  (0 < sample_rate < 2147483648)%Z -> (36 + datalength < 4294967296)%Z ->
  exists wav, write_wav sample_rate frames = Ok wav /\ wave.file wav = expected_file sample_rate frames.
Proof.
  intros Hsr Hd. rewrite write_wav_steps by lia.
  rewrite (header_fields_ok sample_rate (ready sample_rate) datalength)
    by (try reflexivity; unfold datalength; lia).
  rewrite pack_L_ok by (unfold datalength; lia).
  eexists. split; [reflexivity |].
  unfold written, expected_file. cbn [wave.file]. fold datalength.
  rewrite <- !app_assoc. reflexivity.
Qed.

Lemma write_wav_inv (wav : wave.Wave_write) :
  write_wav sample_rate frames = Ok wav ->
  (0 < sample_rate < 2147483648)%Z /\ (36 + datalength < 4294967296)%Z /\
  wave.file wav = expected_file sample_rate frames.
Proof.
  intros H.
  assert (Hpos : (0 < sample_rate)%Z).
  { destruct (Z.lt_ge_cases 0 sample_rate) as [P | N]; [exact P |].
    rewrite write_wav_bad_rate in H by lia. discriminate. }
  assert (B : (0 < sample_rate < 2147483648)%Z /\ (36 + datalength < 4294967296)%Z).
  { rewrite write_wav_steps in H by exact Hpos.
    destruct (wave.header_fields (ready sample_rate) datalength) as [fields | e] eqn:HF;
      [| discriminate].
    apply (header_fields_inv sample_rate) in HF; try reflexivity. lia. }
  destruct B as [B1 B2]. split; [exact B1 |]. split; [exact B2 |].
  destruct (write_wav_ok B1 B2) as [wav' [E F]].
  rewrite E in H. injection H as <-. exact F.
Qed.

Lemma write_wav_cases :
  (0 < sample_rate)%Z ->
  (exists wav, write_wav sample_rate frames = Ok wav) \/
  write_wav sample_rate frames = Raise StructError_out_of_range.
Proof.
  intros Hsr. rewrite write_wav_steps by exact Hsr.
  destruct (header_fields_cases (ready sample_rate) datalength) as [[h ->] | ->];
    [| right; reflexivity].
  destruct (pack_L_cases datalength) as [-> | ->]; [| right; reflexivity].
  left. eexists. reflexivity.
Qed.

Lemma expected_file_length :
  length (expected_file sample_rate frames) = (44 + 2 * length frames)%nat.
Proof.
  unfold expected_file.
  rewrite !length_app, !le_bytes_length, tobytes_length. reflexivity.
Qed.

(** Reading the file back gives the declared parameters and the samples. *)
Lemma read_expected_file :
  (0 < sample_rate < 2147483648)%Z -> (36 + datalength < 4294967296)%Z ->
  reader.read (expected_file sample_rate frames) =
  Some {| reader.nchannels := 1; reader.sampwidth := 2;
          reader.framerate := sample_rate; reader.data := np.tobytes frames |}.
Proof.
  intros Hsr Hd. unfold reader.read, expected_file.
  assert (P4 : (256 ^ Z.of_nat 4 = 4294967296)%Z) by reflexivity.
  assert (P2 : (256 ^ Z.of_nat 2 = 65536)%Z) by reflexivity.
  assert (D0 : (0 <= datalength)%Z) by (unfold datalength; lia).
  rewrite expect_tag by reflexivity.
  rewrite field_le_bytes by lia.
  rewrite expect_tag by reflexivity.
  rewrite expect_tag by reflexivity.
  rewrite field_le_bytes by lia.
  rewrite field_le_bytes by lia.
  rewrite field_le_bytes by lia.
  rewrite field_le_bytes by lia.
  rewrite field_le_bytes by lia.
  rewrite field_le_bytes by lia.
  rewrite field_le_bytes by lia.
  rewrite expect_tag by reflexivity.
  rewrite field_le_bytes by lia.
  replace (Z.to_nat (2 * Z.of_nat (length frames)))
    with (length (np.tobytes frames)) by (rewrite tobytes_length; lia).
  rewrite take_all. reflexivity.
Qed.

End WriteWav.

Lemma decode_expected_file (sample_rate : Z) (n : list R) :
  (0 < sample_rate < 2147483648)%Z ->
  (36 + 2 * Z.of_nat (length (kick_int n)) < 4294967296)%Z ->
  reader.decode (expected_file sample_rate (kick_int n)) = Some (sample_rate, kick_int n).
Proof.
  intros Hsr Hd. unfold reader.decode.
  rewrite (read_expected_file sample_rate (kick_int n) Hsr Hd).
  cbn [reader.nchannels reader.sampwidth reader.framerate reader.data Z.eqb
       Pos.eqb andb].
  rewrite samples16_tobytes by apply kick_int_int16. reflexivity.
Qed.

(** C8. Whatever the normalized buffer, when the writer succeeds the file
    declares one channel, a sample width of two bytes and the given frame
    rate, and decoding its data per that header gives back the quantized
    integer sequence exactly. *)
Theorem pcm_round_trip (sample_rate : Z) (n : list R) (wav : wave.Wave_write) :
  write_wav sample_rate (kick_int n) = Ok wav ->
  reader.read (wave.file wav) =
    Some {| reader.nchannels := 1; reader.sampwidth := 2;
            reader.framerate := sample_rate;
            reader.data := np.tobytes (kick_int n) |} /\
  reader.decode (wave.file wav) = Some (sample_rate, kick_int n).
Proof.
  intros H. apply write_wav_inv in H. destruct H as [Hsr [Hd ->]].
  split.
  - apply read_expected_file; assumption.
  - apply decode_expected_file; assumption.
Qed.




(** ** The tone is not silent *)

Lemma freq_at_bounds (duration base_freq ti : R) :
  0 < duration -> 0 < base_freq -> 0 <= ti ->
  0 < freq_at duration base_freq ti <= base_freq.
Proof.
  intros Hd Hb Ht. split.
  - unfold freq_at. apply Rmult_lt_0_compat; [exact Hb | apply exp_pos].
  - destruct (Req_dec ti 0) as [-> | Hnz].
    + rewrite freq_at_0. lra.
    + left. rewrite <- (freq_at_0 duration base_freq) at 2.
      apply freq_at_decreasing; lra.
Qed.

Lemma integer_multiple_gap (z : Z) (h x : R) :
  0 < h -> 0 < x < h -> x <> h * IZR z.
Proof.
  intros Hh Hx E.
  destruct (Z_lt_ge_dec 0 z) as [Hz | Hz].
  - assert (1 <= IZR z) by (apply (IZR_le 1); lia). nra.
  - assert (IZR z <= 0) by (apply (IZR_le z 0); lia). nra.
Qed.

(** Below the Nyquist rate two consecutive samples of the enveloped tone are
    never both zero: their phases differ by less than a half turn. *)
Lemma tone_consecutive_samples
    (duration : R) (sample_rate : Z) (base_freq decay : R) (tt : list R) (i : nat) :
  0 < duration -> 0 < base_freq -> 2 * base_freq < IZR sample_rate ->
  t duration sample_rate = Ok tt -> (S i < length tt)%nat ->
  nth i (kick duration sample_rate base_freq decay tt) 0 = 0 ->
  nth (S i) (kick duration sample_rate base_freq decay tt) 0 = 0 ->
  False.
Proof.
  intros Hd Hb Hny Ht Hi H0 H1.
  rewrite kick_nth in H0, H1 by lia.
  assert (Hsin : forall j, sin (2 * PI *
              nth j (np.cumsum (freq duration base_freq tt)) 0 / IZR sample_rate)
              * exp (- nth j tt 0 / decay) = 0 ->
            exists z, nth j (np.cumsum (freq duration base_freq tt)) 0
                      = IZR sample_rate / 2 * IZR z).
  { intros j Hj. apply Rmult_integral in Hj. destruct Hj as [Hj | Hj].
    - apply sin_eq_0_0 in Hj. destruct Hj as [z Hz]. exists z.
      pose proof PI_RGT_0 as Hpi.
      apply (Rmult_eq_reg_l (2 * PI / IZR sample_rate)).
      + transitivity (IZR z * PI).
        * rewrite <- Hz. unfold Rdiv. ring.
        * field. lra.
      + unfold Rdiv. apply Rmult_integral_contrapositive_currified; [lra |].
        apply Rinv_neq_0_compat. lra.
    - pose proof (exp_pos (- nth j tt 0 / decay)). lra. }
  destruct (Hsin _ H0) as [z0 E0]. destruct (Hsin _ H1) as [z1 E1].
  unfold np.cumsum in E0, E1.
  rewrite cumsum_from_nth_S in E1 by (unfold freq; rewrite length_map; exact Hi).
  rewrite E0, freq_nth in E1 by exact Hi.
  assert (Hti : 0 <= nth (S i) tt 0).
  { apply t_inv in Ht. destruct Ht as [_ Ett].
    apply (linspace_nat_nonneg duration (Z.to_nat (num_samples duration sample_rate))).
    - lra.
    - rewrite <- Ett. apply nth_In. exact Hi. }
  pose proof (freq_at_bounds duration base_freq _ Hd Hb Hti) as HF.
  apply (integer_multiple_gap (z1 - z0) (IZR sample_rate / 2)
           (freq_at duration base_freq (nth (S i) tt 0))); [lra | lra |].
  rewrite minus_IZR. lra.
Qed.

(** With two samples left beyond the click, the buffer is not all zero,
    whatever the noise. *)
Lemma kick_click_not_silent
    (gauss : nat -> R) (duration : R) (sample_rate : Z) (base_freq decay : R)
    (k : list R) :
  0 < duration -> 0 < base_freq -> 2 * base_freq < IZR sample_rate ->
  (click_samples sample_rate + 2 <= num_samples duration sample_rate)%Z ->
  kick_click gauss duration sample_rate base_freq decay = Ok k ->
  Exists (fun x => x <> 0) k.
Proof.
  intros Hd Hb Hny Hroom Hk.
  pose proof (kick_click_length _ _ _ _ _ _ Hk) as Lk.
  destruct (kick_click_inv _ _ _ _ _ _ Hk) as [tt [c [Ht [Hc Hadd]]]].
  pose proof (t_length _ _ _ Ht) as Lt.
  destruct (click_inv _ _ _ Hc) as [Hcs _].
  set (i := Z.to_nat (click_samples sample_rate)) in *.
  assert (Hi : (S i < length tt)%nat) by (unfold i; lia).
  apply Exists_exists.
  destruct (Req_dec (nth i k 0) 0) as [Z0 | NZ0].
  - exists (nth (S i) k 0). split; [apply nth_In; lia |].
    intros Z1.
    rewrite (iadd_prefix_beyond _ _ _ _ i Hadd) in Z0 by lia.
    rewrite (iadd_prefix_beyond _ _ _ _ (S i) Hadd) in Z1 by lia.
    exact (tone_consecutive_samples _ _ _ _ _ _ Hd Hb Hny Ht Hi Z0 Z1).
  - exists (nth i k 0). split; [apply nth_In; lia | exact NZ0].
Qed.

(** ** The whole call *)

(** The call writes the expected file as soon as the buffer has a positive
    peak and the header fields fit. *)
Lemma max_float_ge_1 : 1 <= max_float.
Proof.
  unfold max_float.
  assert (H52 : 1 <= 2 ^ 52) by (apply pow_R1_Rle; lra).
  assert (H1023 : 1 <= 2 ^ 1023) by (apply pow_R1_Rle; lra).
  assert (Hinv : / 2 ^ 52 <= 1).
  { rewrite <- Rinv_1. apply Rinv_le_contravar; lra. }
  assert (1 <= 2 - / 2 ^ 52) by lra. nra.
Qed.

(** A positive decay keeps the envelope at or below 1, far from overflow. *)
Lemma envelope_in_range (duration : R) (sample_rate : Z) (decay : R) :
  0 < duration -> 0 < decay ->
  envelope_overflows duration sample_rate decay = false.
Proof.
  intros Hd Hdec. unfold envelope_overflows.
  destruct (t duration sample_rate) as [ts | e] eqn:Ht; [| reflexivity].
  destruct (t_inv _ _ _ Ht) as [_ E].
  destruct (existsb _ (envelope decay ts)) eqn:Hex; [| reflexivity].
  apply existsb_exists in Hex. destruct Hex as [x [Hx Hbig]].
  unfold envelope in Hx. apply in_map_iff in Hx. destruct Hx as [ti [<- Hti]].
  destruct (Rlt_dec max_float (exp (- ti / decay))) as [C | _]; [| discriminate].
  exfalso.
  assert (0 <= ti).
  { rewrite E in Hti. apply (linspace_nat_nonneg duration _ ti ltac:(lra) Hti). }
  assert (exp (- ti / decay) <= 1).
  { rewrite <- exp_0. destruct (Req_dec ti 0) as [-> | Hnz].
    - right. f_equal. unfold Rdiv. lra.
    - left. apply exp_increasing. unfold Rdiv.
      assert (0 < / decay) by (apply Rinv_0_lt_compat; exact Hdec).
      assert (0 < ti * / decay) by (apply Rmult_lt_0_compat; lra).
      lra. }
  pose proof max_float_ge_1. lra.
Qed.

Lemma generate_kick_wrote
    (gauss : nat -> R) (duration : R) (sample_rate : Z) (base_freq decay : R)
    (filename : string) (k : list R) (p : R) :
  kick_click gauss duration sample_rate base_freq decay = Ok k ->
  peak k = Ok p -> 0 < p -> 0 < duration -> 0 < decay ->
  (0 < sample_rate < 2147483648)%Z ->
  (36 + 2 * Z.of_nat (length k) < 4294967296)%Z ->
  generate_kick gauss duration sample_rate base_freq decay filename =
  Wrote filename (expected_file sample_rate (kick_int (map (fun x => x / p) k))).
Proof.
  intros Hk Hp Hpos Hdur Hdecay Hsr Hlen. unfold generate_kick.
  rewrite Hk. cbn [bind]. unfold normalize. rewrite Hp. cbn [bind].
  destruct (write_wav_ok sample_rate (kick_int (map (fun x => x / p) k)) Hsr)
    as [wav [Ew Fw]].
  { unfold kick_int. rewrite !length_map. exact Hlen. }
  rewrite Ew, Fw.
  assert (F : finite duration sample_rate decay k = true).
  { unfold finite. destruct k as [| x k']; [reflexivity |].
    destruct (Req_dec_T decay 0) as [C | _]; [lra |].
    rewrite (envelope_in_range duration sample_rate decay Hdur Hdecay).
    rewrite Hp. destruct (Req_dec_T p 0) as [C | _]; [lra | reflexivity]. }
  rewrite F. reflexivity.
Qed.

(** ** Frames at full scale *)

(** A sample is quantized to full scale exactly when it attains the peak. *)
Lemma full_scale_iff (x p : R) :
  0 < p -> Rabs x <= p ->
  (holds_peak (np.astype_int16 (x / p * 32767)) = true <-> Rabs x = p).
Proof.
  intros Hp Hx.
  assert (Hs : -1 <= x / p <= 1).
  { unfold Rabs in Hx. assert (0 < / p) by (apply Rinv_0_lt_compat; exact Hp).
    assert (x / p * p = x) by (field; lra).
    destruct (Rcase_abs x); split; nra. }
  destruct (astype_int16_in_unit _ Hs) as [E B]. rewrite E.
  unfold holds_peak. rewrite Z.eqb_eq.
  assert (Hxp : x = x / p * p) by (field; lra).
  destruct (Rle_dec 0 (x / p)) as [Hn | Hn].
  - destruct (proj1 (trunc_toward_zero (x / p * 32767)) ltac:(lra)) as [T P].
    assert (Hx0 : 0 <= x) by nra. rewrite (Rabs_pos_eq x Hx0).
    split; intros H.
    + assert (Hq : trunc (x / p * 32767) = 32767%Z) by lia.
      rewrite Hq in T. nra.
    + assert (Hy : x / p * 32767 = IZR 32767) by (rewrite H; field; lra).
      rewrite Hy, trunc_IZR. reflexivity.
  - destruct (proj2 (trunc_toward_zero (x / p * 32767)) ltac:(lra)) as [T P].
    assert (Hx0 : x < 0) by nra. rewrite (Rabs_left x Hx0).
    split; intros H.
    + assert (Hq : trunc (x / p * 32767) = (-32767)%Z) by lia.
      rewrite Hq in T. nra.
    + assert (Hy : x / p * 32767 = IZR (-32767)).
      { replace x with (- p) by lra. field. lra. }
      rewrite Hy, trunc_IZR. reflexivity.
Qed.

Lemma peak_frames_positive (k : list R) (p : R) :
  peak k = Ok p -> 0 < p ->
  (1 <= peak_frames (kick_int (map (fun x => (x / p)%R) k)))%nat.
Proof.
  intros Hp Hpos. destruct (peak_spec k p Hp) as [_ [[x [Hx Ex]] Hub]].
  assert (Hin : In (np.astype_int16 (x / p * 32767))
                   (filter holds_peak (kick_int (map (fun x => x / p) k)))).
  { apply filter_In. split.
    - unfold kick_int. rewrite map_map.
      apply (in_map (fun y => np.astype_int16 (y / p * 32767))). exact Hx.
    - apply full_scale_iff; [exact Hpos | lra | exact Ex]. }
  unfold peak_frames.
  destruct (filter holds_peak (kick_int (map (fun x => x / p) k))); [contradiction |].
  simpl. lia.
Qed.

Lemma peak_frames_two (frames : list Z) :
  (2 <= length frames)%nat ->
  holds_peak (nth 0 frames 0%Z) = true -> holds_peak (nth 1 frames 0%Z) = true ->
  (2 <= peak_frames frames)%nat.
Proof.
  intros L H0 H1. destruct frames as [| a [| b rest]]; simpl in L; try lia.
  simpl in H0, H1. unfold peak_frames. cbn [filter]. rewrite H0, H1. simpl. lia.
Qed.

(** ** The first call of the script *)

Lemma kick1_buffer (gauss : nat -> R) :
  exists k, kick_click gauss 0.5 44100 55 0.4 = Ok k /\
            Z.of_nat (length k) = 22050%Z.
Proof.
  destruct (kick_click_ok gauss 0.5 44100 55 0.4) as [k Hk].
  { rewrite num_samples_kick1, click_samples_44100. lia. }
  exists k. split; [exact Hk |].
  rewrite (kick_click_length _ _ _ _ _ _ Hk), num_samples_kick1. lia.
Qed.

Lemma kick1_wrote (gauss : nat -> R) (k : list R) (p : R) :
  kick_click gauss 0.5 44100 55 0.4 = Ok k -> peak k = Ok p -> 0 < p ->
  let frames := kick_int (map (fun x => x / p) k) in
  kick1 gauss = Wrote (output_dir ++ "/kick1.wav") (expected_file 44100 frames) /\
  Z.of_nat (length (expected_file 44100 frames)) = 44144%Z /\
  Z.of_nat (length frames) = 22050%Z /\
  reader.decode (expected_file 44100 frames) = Some (44100%Z, frames).
Proof.
  intros Hk Hp Hpos frames.
  assert (Lk : Z.of_nat (length k) = 22050%Z).
  { rewrite (kick_click_length _ _ _ _ _ _ Hk), num_samples_kick1. lia. }
  assert (Lf : Z.of_nat (length frames) = 22050%Z).
  { unfold frames, kick_int. rewrite !length_map. exact Lk. }
  assert (W : kick1 gauss
              = Wrote (output_dir ++ "/kick1.wav") (expected_file 44100 frames)).
  { unfold kick1. apply generate_kick_wrote; try assumption; lra || lia. }
  split; [exact W |]. split; [| split; [exact Lf |]].
  - rewrite expected_file_length. lia.
  - apply decode_expected_file; [lia |]. fold frames. lia.
Qed.

(** C6, as the code has it. The call [base_freq=55, decay=0.4] with the
    default duration 0.5 and rate 44100, whatever the noise drawn: the buffer
    has 22050 samples, its peak is positive, the file is written and holds
    44 + 22050 * 2 = 44144 bytes, it decodes to the 22050 quantized frames,
    and at least one frame holds +32767 or -32767. *)
Theorem kick1_file (gauss : nat -> R) :
  exists k p,
    kick_click gauss 0.5 44100 55 0.4 = Ok k /\
    Z.of_nat (length k) = 22050%Z /\
    peak k = Ok p /\ 0 < p /\
    let frames := kick_int (map (fun x => x / p) k) in
    kick1 gauss = Wrote (output_dir ++ "/kick1.wav") (expected_file 44100 frames) /\
    Z.of_nat (length (expected_file 44100 frames)) = 44144%Z /\
    Z.of_nat (length frames) = 22050%Z /\
    reader.decode (expected_file 44100 frames) = Some (44100%Z, frames) /\
    (1 <= peak_frames frames)%nat.
Proof.
  destruct (kick1_buffer gauss) as [k [Hk Lk]].
  assert (Hnz : Exists (fun x => x <> 0) k).
  { apply (kick_click_not_silent gauss 0.5 44100 55 0.4); try lra; try exact Hk.
    rewrite num_samples_kick1, click_samples_44100. lia. }
  destruct (peak_nonempty k) as [p Hp].
  { intros ->. inversion Hnz. }
  pose proof (peak_positive k p Hp Hnz) as Hpos.
  exists k, p. split; [exact Hk |]. split; [exact Lk |].
  split; [exact Hp |]. split; [exact Hpos |].
  intros frames.
  destruct (kick1_wrote gauss k p Hk Hp Hpos) as [W [L1 [L2 D]]].
  fold frames in W, L1, L2, D.
  repeat (split; [assumption |]).
  apply peak_frames_positive; assumption.
Qed.

Lemma twin_peak_buffer :
  exists k, kick_click twin_peak_gauss 0.5 44100 55 0.4 = Ok k /\
            Z.of_nat (length k) = 22050%Z /\
            nth 0 k 0 = 1 /\ nth 1 k 0 = 1 /\ peak k = Ok 1.
Proof.
  destruct (kick1_buffer twin_peak_gauss) as [k [Hk Lk]].
  exists k. split; [exact Hk |]. split; [exact Lk |].
  destruct (kick_click_inv _ _ _ _ _ _ Hk) as [tt [c [Ht [Hc Hadd]]]].
  destruct (t_inv _ _ _ Ht) as [_ Ett].
  assert (Ltt : Z.of_nat (length tt) = 22050%Z).
  { rewrite (t_length _ _ _ Ht), num_samples_kick1. lia. }
  destruct (click_ok twin_peak_gauss 44100) as [c' [Hc' [Lc Nc]]].
  { rewrite click_samples_44100. lia. }
  rewrite Hc in Hc'. injection Hc' as <-.
  assert (Hcs : Z.to_nat (click_samples 44100) = 220%nat)
    by (rewrite click_samples_44100; reflexivity).
  fold tone1 in Ett. 
  assert (Etone : kick 0.5 44100 55 0.4 tt = tone1) by (unfold tone1; rewrite Ett; reflexivity).
  rewrite Etone in Hadd.
  assert (Ltone : Z.of_nat (length tone1) = 22050%Z).
  { rewrite <- Etone, kick_length. exact Ltt. }
  assert (Hlow : forall i, (i < 2)%nat -> nth i k 0 = 1).
  { intros i Hi.
    rewrite (iadd_prefix_inside _ _ _ _ i Hadd) by lia.
    rewrite Nc by lia. unfold twin_peak_gauss.
    destruct (Nat.ltb_spec i 2) as [_ | C]; [| lia].
    set (e := exp _). assert (0 < e) by apply exp_pos.
    field. lra. }
  assert (Htone : forall x, In x tone1 -> Rabs x <= 1).
  { intros x Hx. rewrite <- Etone in Hx.
    apply (kick_abs_le_1 0.5 44100 55 0.4 tt); [lra | | exact Hx].
    intros ti Hti. rewrite Ett in Hti.
    apply (linspace_nat_nonneg 0.5 _ ti ltac:(lra) Hti). }
  assert (Hall : forall x, In x k -> Rabs x <= 1).
  { intros x Hx. destruct (In_nth _ _ 0 Hx) as [i [Hi <-]].
    destruct (Nat.lt_ge_cases i 2) as [H2 | H2].
    - rewrite Hlow by exact H2. rewrite Rabs_R1. lra.
    - assert (E : nth i k 0 = nth i tone1 0).
      { destruct (Nat.lt_ge_cases i (Z.to_nat (click_samples 44100))) as [Hin | Hout].
        - rewrite (iadd_prefix_inside _ _ _ _ i Hadd) by lia.
          rewrite Nc by exact Hin. unfold twin_peak_gauss.
          destruct (Nat.ltb_spec i 2) as [C | _]; [lia |]. lra.
        - apply (iadd_prefix_beyond _ _ _ _ i Hadd). exact Hout. }
      rewrite E. apply Htone. apply nth_In. lia. }
  split; [apply Hlow; lia |]. split; [apply Hlow; lia |].
  unfold peak, np.abs. apply max_intro.
  - apply in_map_iff. exists (nth 0 k 0). split.
    + rewrite Hlow by lia. apply Rabs_R1.
    + apply nth_In. lia.
  - intros y Hy. apply in_map_iff in Hy. destruct Hy as [x [<- Hx]].
    apply Hall. exact Hx.
Qed.

(** C6, as stated, fails: with that draw two frames of the first file hold
    32767, not exactly one. *)
Lemma kick1_two_peak_frames :
  exists content frames,
    kick1 twin_peak_gauss = Wrote (output_dir ++ "/kick1.wav") content /\
    Z.of_nat (length content) = 44144%Z /\
    reader.decode content = Some (44100%Z, frames) /\
    nth 0 frames 0%Z = 32767%Z /\ nth 1 frames 0%Z = 32767%Z /\
    peak_frames frames <> 1%nat.
Proof.
  destruct twin_peak_buffer as [k [Hk [Lk [K0 [K1 Hp]]]]].
  destruct (kick1_wrote twin_peak_gauss k 1 Hk Hp ltac:(lra)) as [W [L1 [L2 D]]].
  set (frames := kick_int (map (fun x => x / 1) k)) in *.
  assert (Hq : forall i, (i < 2)%nat -> nth i k 0 = 1 -> nth i frames 0%Z = 32767%Z).
  { intros i Hi Ki. unfold frames, kick_int. rewrite map_map.
    rewrite (nth_map_in _ k i 0%Z 0) by lia. rewrite Ki.
    replace (1 / 1 * 32767) with (IZR 32767) by lra.
    unfold np.astype_int16. rewrite trunc_IZR. reflexivity. }
  pose proof (Hq 0%nat ltac:(lia) K0) as Q0.
  pose proof (Hq 1%nat ltac:(lia) K1) as Q1.
  exists (expected_file 44100 frames), frames.
  repeat (split; [assumption |]).
  assert (2 <= peak_frames frames)%nat; [| lia].
  apply peak_frames_two; [lia | rewrite Q0; reflexivity | rewrite Q1; reflexivity].
Qed.

(** ** Worked instances *)

Example linspace_five : np.linspace_nat 0 1 5 = [0; 0.25; 0.5; 0.75; 1].
Proof. unfold np.linspace_nat. simpl. repeat f_equal; lra. Qed.

Example cumsum_three : np.cumsum [1; 2; 3] = [1; 3; 6].
Proof. unfold np.cumsum. simpl. repeat f_equal; lra. Qed.

Example iadd_prefix_fits : np.iadd_prefix [1; 2; 3] 2 [10; 20] = Ok [11; 22; 3].
Proof. unfold np.iadd_prefix. simpl. repeat f_equal; lra. Qed.

Example iadd_prefix_too_long :
  np.iadd_prefix [1] 3 [10; 20; 30] = Raise ValueError_broadcast.
Proof. reflexivity. Qed.

Example iadd_prefix_empty_buffer :
  np.iadd_prefix [] 2 [10; 20] = Raise ValueError_broadcast.
Proof. reflexivity. Qed.

Example max_of_nothing : np.max [] = Raise ValueError_empty_reduction.
Proof. reflexivity. Qed.

Example int16_bytes_examples :
  np.tobytes [32767; -32767; 0; -1; 258]%Z
  = [255; 127; 1; 128; 0; 0; 255; 255; 2; 1]%Z.
Proof. reflexivity. Qed.

Example write_three_frames :
  option_map wave.file
    (match write_wav 44100 [32767; -32767; 0]%Z with Ok w => Some w | Raise _ => None end)
  = Some [82; 73; 70; 70; 42; 0; 0; 0; 87; 65; 86; 69; 102; 109; 116; 32;
          16; 0; 0; 0; 1; 0; 1; 0; 68; 172; 0; 0; 136; 88; 1; 0; 2; 0; 16; 0;
          100; 97; 116; 97; 6; 0; 0; 0; 255; 127; 1; 128; 0; 0]%Z.
Proof. vm_compute. reflexivity. Qed.

Example read_three_frames :
  match write_wav 44100 [32767; -32767; 0]%Z with
  | Ok w => reader.decode (wave.file w)
  | Raise _ => None
  end = Some (44100, [32767; -32767; 0])%Z.
Proof. vm_compute. reflexivity. Qed.

Example write_bad_rate : write_wav 0 [] = Raise WaveError_rate_not_specified.
Proof. reflexivity. Qed.

Example write_negative_rate :
  write_wav (-100) [1; 2]%Z = Raise WaveError_rate_not_specified.
Proof. reflexivity. Qed.

Example write_huge_rate :
  write_wav 2147483648 [1; 2]%Z = Raise StructError_out_of_range.
Proof. vm_compute. reflexivity. Qed.

Lemma num_samples_short : num_samples 0.001 44100 = 44%Z.
Proof. unfold num_samples. apply trunc_nonneg; lra. Qed.

Lemma peak_two_samples : peak [2; -1] = Ok 2.
Proof.
  unfold peak, np.abs. apply max_intro.
  - left. apply Rabs_pos_eq. lra.
  - intros y [<- | [<- | []]]; unfold Rabs.
    + destruct (Rcase_abs 2); lra.
    + destruct (Rcase_abs (-1)); lra.
Qed.

Lemma normalized_peak_is_one_witness :
  exists k,
    0 < 0.5 /\ (0 < 44100)%Z /\ 0 < 55 /\ 0 < 0.4 /\
    kick_click (fun _ => 0) 0.5 44100 55 0.4 = Ok k /\
    Exists (fun x => x <> 0) k /\
    exists p n,
      0 < p /\ (forall x, In x k -> Rabs x <= p) /\
      (exists x, In x k /\ Rabs x = p) /\
      normalize k = Ok n /\
      (forall y, In y n -> Rabs y <= 1) /\
      (exists y, In y n /\ Rabs y = 1).
Proof.
  destruct (kick1_buffer (fun _ => 0)) as [k [Hk _]].
  assert (Hnz : Exists (fun x => x <> 0) k).
  { apply (kick_click_not_silent (fun _ => 0) 0.5 44100 55 0.4); try lra; try exact Hk.
    rewrite num_samples_kick1, click_samples_44100. lia. }
  exists k.
  split; [lra |]. split; [lia |]. split; [lra |]. split; [lra |].
  split; [exact Hk |]. split; [exact Hnz |].
  destruct (normalized_peak_is_one (fun _ => 0) 0.5 44100 55 0.4 k
              ltac:(lra) ltac:(lia) ltac:(lra) ltac:(lra) Hk Hnz)
    as [p [n [Hpos [Hub [Hatt [_ [Hn [_ [_ [Hub1 [Hatt1 _]]]]]]]]]]].
  exists p, n. repeat (split; [assumption |]). exact Hatt1.
Defined.

Lemma time_axis_shape_witness :
  0 < 0.5 /\ (0 < 44100)%Z /\
  exists tt k n,
    t 0.5 44100 = Ok tt /\
    length tt = Z.to_nat (num_samples 0.5 44100) /\
    evenly_spaced 0 0.5 tt /\
    kick_click (fun _ => 0) 0.5 44100 55 0.4 = Ok k /\
    normalize k = Ok n /\
    length n = Z.to_nat (num_samples 0.5 44100) /\
    length (kick_int n) = Z.to_nat (num_samples 0.5 44100).
Proof.
  split; [lra |]. split; [lia |].
  destruct (time_axis_shape (fun _ => 0) 0.5 44100 55 0.4 ltac:(lra) ltac:(lia))
    as [_ [_ [tt [Ht [L [_ [Hbuf [H2 _]]]]]]]].
  destruct (kick1_buffer (fun _ => 0)) as [k [Hk Lk]].
  destruct (peak_nonempty k) as [p Hp].
  { intros ->. simpl in Lk. lia. }
  assert (Hn : normalize k = Ok (map (fun x => x / p) k))
    by (unfold normalize; rewrite Hp; reflexivity).
  destruct (Hbuf k _ Hk Hn) as [Ln Lq].
  exists tt, k, (map (fun x => x / p) k).
  split; [exact Ht |]. split; [exact L |].
  split; [apply H2; rewrite num_samples_kick1; lia |].
  split; [exact Hk |]. split; [exact Hn |]. split; [exact Ln | exact Lq].
Defined.

Lemma sweep_frequency_witness :
  let tt := np.linspace_nat 0 0.5 (Z.to_nat (num_samples 0.5 44100)) in
  0 < 0.5 /\ (0 < 44100)%Z /\ 0 < 55 /\ t 0.5 44100 = Ok tt /\
  freq_at 0.5 55 0 = 55 /\
  (forall t1 t2, 0 <= t1 < t2 -> freq_at 0.5 55 t2 < freq_at 0.5 55 t1) /\
  (forall i j, (i < j < length tt)%nat ->
     nth j (freq 0.5 55 tt) 0 < nth i (freq 0.5 55 tt) 0).
Proof.
  intros tt.
  assert (Ht : t 0.5 44100 = Ok tt).
  { apply t_ok. rewrite num_samples_kick1. lia. }
  split; [lra |]. split; [lia |]. split; [lra |]. split; [exact Ht |].
  destruct (sweep_frequency 0.5 44100 55 tt ltac:(lra) ltac:(lia) ltac:(lra) Ht)
    as [_ [H0 [Hdec [_ [_ [_ Harr]]]]]].
  split; [exact H0 |]. split; [exact Hdec | exact Harr].
Defined.



Lemma click_only_touches_prefix_witness :
  exists tt c r,
    t 0.5 44100 = Ok tt /\
    click (fun _ => 1) 44100 = Ok c /\
    kick_click (fun _ => 1) 0.5 44100 55 0.4 = Ok r /\
    length r = length (kick 0.5 44100 55 0.4 tt) /\
    (forall i, (Z.to_nat (click_samples 44100) <= i)%nat ->
               nth i r 0 = nth i (kick 0.5 44100 55 0.4 tt) 0).
Proof.
  destruct (kick1_buffer (fun _ => 1)) as [r [Hr _]].
  destruct (kick_click_inv _ _ _ _ _ _ Hr) as [tt [c [Ht [Hc _]]]].
  exists tt, c, r.
  split; [exact Ht |]. split; [exact Hc |]. split; [exact Hr |].
  destruct (click_only_touches_prefix (fun _ => 1) 0.5 44100 55 0.4 tt c r Ht Hc Hr)
    as [_ [L [B _]]].
  split; [exact L | exact B].
Defined.

Lemma zero_duration_raises_witness :
  (0 < 44100)%Z /\
  t 0 44100 = Ok [] /\
  generate_kick (fun _ => 0) 0 44100 55 0.4 "kick1.wav" =
  Raised (if (2 <=? click_samples 44100)%Z then ValueError_broadcast
          else ValueError_empty_reduction).
Proof.
  split; [lia |].
  apply (zero_duration_raises (fun _ => 0) 44100 55 0.4 "kick1.wav"). lia.
Defined.

Lemma pcm_round_trip_witness :
  exists wav,
    write_wav 44100 (kick_int [1; -0.5]) = Ok wav /\
    reader.decode (wave.file wav) = Some (44100%Z, kick_int [1; -0.5]).
Proof.
  destruct (write_wav_ok 44100 (kick_int [1; -0.5])) as [wav [Hw _]];
    [lia | simpl; lia |].
  exists wav. split; [exact Hw |].
  apply (pcm_round_trip 44100 [1; -0.5] wav Hw).
Defined.

Lemma quantized_samples_in_range_witness :
  peak [2; -1] = Ok 2 /\ 0 < 2 /\
  Forall (fun q => (-32767 <= q <= 32767)%Z)
         (kick_int (map (fun x => x / 2) [2; -1])).
Proof.
  split; [exact peak_two_samples |]. split; [lra |].
  apply (quantized_samples_in_range [2; -1] 2 peak_two_samples). lra.
Defined.

Lemma short_buffer_raises_witness :
  (0 < num_samples 0.001 44100 < click_samples 44100)%Z /\
  generate_kick (fun _ => 0) 0.001 44100 55 0.4 "kick.wav"
  = Raised ValueError_broadcast.
Proof.
  assert (H : (0 < num_samples 0.001 44100 < click_samples 44100)%Z).
  { rewrite num_samples_short, click_samples_44100. lia. }
  split; [exact H |].
  apply (short_buffer_raises (fun _ => 0) 0.001 44100 55 0.4 "kick.wav" H).
Defined.

(** * Further properties of the code *)

(** ** Which exception, and when *)

Lemma num_samples_negative : num_samples (-1) 44100 = (-44100)%Z.
Proof.
  unfold num_samples. replace (44100 * -1) with (IZR (-44100)) by lra.
  apply trunc_IZR.
Qed.

Lemma num_samples_reversed : num_samples (-0.5) (-44100) = 22050%Z.
Proof. unfold num_samples. apply trunc_nonneg; lra. Qed.

Lemma click_samples_reversed : click_samples (-44100) = (-220)%Z.
Proof. unfold click_samples, click_duration. apply trunc_neg; lra. Qed.

(** X1. A negative sample count, as a negative duration gives: the time axis
    cannot be built and the call raises before anything else happens. *)
Theorem negative_sample_count_raises
    (gauss : nat -> R) (duration : R) (sample_rate : Z) (base_freq decay : R)
    (filename : string) :
  (num_samples duration sample_rate < 0)%Z ->
  t duration sample_rate = Raise ValueError_negative_samples /\
  generate_kick gauss duration sample_rate base_freq decay filename
  = Raised ValueError_negative_samples.
Proof.
  intros H. pose proof (t_raise duration sample_rate H) as E.
  split; [exact E |].
  unfold generate_kick, kick_click. rewrite E. reflexivity.
Qed.

Lemma negative_sample_count_raises_witness :
  (num_samples (-1) 44100 < 0)%Z /\
  generate_kick (fun _ => 0) (-1) 44100 55 0.4 "kick.wav"
  = Raised ValueError_negative_samples.
Proof.
  assert (H : (num_samples (-1) 44100 < 0)%Z) by (rewrite num_samples_negative; lia).
  split; [exact H |].
  apply (negative_sample_count_raises (fun _ => 0) (-1) 44100 55 0.4 "kick.wav" H).
Defined.

(** X2. A negative click count, as a sample rate of -200 or below gives
    when the duration is negative too: the time axis is built, the noise
    cannot be drawn. *)
Theorem negative_click_count_raises
    (gauss : nat -> R) (duration : R) (sample_rate : Z) (base_freq decay : R)
    (filename : string) :
  (0 <= num_samples duration sample_rate)%Z ->
  (click_samples sample_rate < 0)%Z ->
  generate_kick gauss duration sample_rate base_freq decay filename
  = Raised ValueError_negative_dimensions.
Proof.
  intros HN Hcs. unfold generate_kick, kick_click.
  rewrite (t_ok duration sample_rate HN). cbn [bind].
  rewrite (click_raise gauss sample_rate Hcs). reflexivity.
Qed.

Lemma negative_click_count_raises_witness :
  (0 <= num_samples (-0.5) (-44100))%Z /\ (click_samples (-44100) < 0)%Z /\
  generate_kick (fun _ => 0) (-0.5) (-44100) 55 0.4 "kick.wav"
  = Raised ValueError_negative_dimensions.
Proof.
  assert (HN : (0 <= num_samples (-0.5) (-44100))%Z)
    by (rewrite num_samples_reversed; lia).
  assert (Hcs : (click_samples (-44100) < 0)%Z)
    by (rewrite click_samples_reversed; lia).
  split; [exact HN |]. split; [exact Hcs |].
  apply (negative_click_count_raises (fun _ => 0) (-0.5) (-44100) 55 0.4 "kick.wav" HN Hcs).
Defined.

Lemma room_passes_synthesis
    (gauss : nat -> R) (duration : R) (sample_rate : Z) (base_freq decay : R)
    (filename : string) :
  (0 < num_samples duration sample_rate)%Z ->
  (0 <= click_samples sample_rate <= num_samples duration sample_rate)%Z ->
  forall e, generate_kick gauss duration sample_rate base_freq decay filename
            <> Raised e.
Proof.
  intros HN Hcs e.
  destruct (kick_click_ok gauss duration sample_rate base_freq decay Hcs) as [k Hk].
  pose proof (kick_click_length _ _ _ _ _ _ Hk) as L.
  destruct (peak_nonempty k) as [p Hp].
  { intros ->. simpl in L. lia. }
  unfold generate_kick. rewrite Hk. cbn [bind]. unfold normalize.
  rewrite Hp. cbn [bind].
  destruct (write_wav sample_rate _); [destruct (finite _ _ _ _) |]; discriminate.
Qed.

Lemma num_samples_backwards : num_samples (-0.5) (-100) = 50%Z.
Proof. unfold num_samples. apply trunc_nonneg; lra. Qed.

Lemma click_samples_backwards : click_samples (-100) = 0%Z.
Proof. unfold click_samples, click_duration. apply trunc_neg; lra. Qed.

(** X3. With a sample rate of zero or below no file is ever completed: the
    call raises before the file is opened, or [setframerate] rejects the
    rate inside the [with] block and the [close] on leaving the block, finding
    no rate set, raises in its turn: the error that leaves the block is
    "sampling rate not specified". *)
Theorem nonpositive_rate_never_writes
    (gauss : nat -> R) (duration : R) (sample_rate : Z) (base_freq decay : R)
    (filename : string) :
  (sample_rate <= 0)%Z ->
  (exists e, generate_kick gauss duration sample_rate base_freq decay filename
             = Raised e) \/
  generate_kick gauss duration sample_rate base_freq decay filename
  = WriteFailed WaveError_rate_not_specified.
Proof.
  intros H. unfold generate_kick.
  destruct (kick_click gauss duration sample_rate base_freq decay) as [k | e];
    cbn [bind]; [| left; exists e; reflexivity].
  destruct (normalize k) as [n | e]; cbn [bind]; [| left; exists e; reflexivity].
  rewrite write_wav_bad_rate by exact H. right. reflexivity.
Qed.

Lemma nonpositive_rate_never_writes_witness :
  (-100 <= 0)%Z /\
  generate_kick (fun _ => 0) (-0.5) (-100) 55 0.4 "kick.wav"
  = WriteFailed WaveError_rate_not_specified.
Proof.
  split; [lia |].
  destruct (nonpositive_rate_never_writes (fun _ => 0) (-0.5) (-100) 55 0.4
              "kick.wav" ltac:(lia)) as [[e He] | H]; [| exact H].
  exfalso.
  apply (room_passes_synthesis (fun _ => 0) (-0.5) (-100) 55 0.4 "kick.wav"
           ltac:(rewrite num_samples_backwards; lia)
           ltac:(rewrite click_samples_backwards, num_samples_backwards; lia)
           e He).
Defined.

(** X4. The call gets past synthesis, to the point where the file is opened,
    exactly when the buffer is non-empty and at least as long as the click. *)
Theorem reaches_file_iff_room
    (gauss : nat -> R) (duration : R) (sample_rate : Z) (base_freq decay : R)
    (filename : string) :
  (forall e, generate_kick gauss duration sample_rate base_freq decay filename
             <> Raised e) <->
  (0 < num_samples duration sample_rate)%Z /\
  (0 <= click_samples sample_rate <= num_samples duration sample_rate)%Z.
Proof.
  split; [apply file_opened_needs_room |].
  intros [HN Hcs]. apply room_passes_synthesis; assumption.
Qed.

(** ** Evenly spaced arrays from zero *)

Lemma linspace0_nth (b : R) (n i : nat) :
  (i < n)%nat -> nth i (np.linspace_nat 0 b n) 0 = INR i * (b / INR (n - 1)).
Proof.
  intros Hi. destruct (Nat.le_gt_cases 2 n) as [H2 | H1].
  - rewrite linspace_nat_nth_step by assumption. rewrite Rminus_0_r. lra.
  - assert (n = 1%nat) by lia. subst n. assert (i = 0%nat) by lia. subst i.
    rewrite linspace_nat_single. simpl. lra.
Qed.

Lemma linspace0_le (b : R) (n i : nat) :
  0 <= b -> (i < n)%nat -> nth i (np.linspace_nat 0 b n) 0 <= b.
Proof.
  intros Hb Hi. rewrite linspace0_nth by exact Hi.
  destruct (Nat.le_gt_cases 2 n) as [H2 | H1].
  - assert (Hd : 0 < INR (n - 1)) by (apply lt_0_INR; lia).
    assert (Hle : INR i <= INR (n - 1)) by (apply le_INR; lia).
    assert (Hq : 0 <= b / INR (n - 1)).
    { unfold Rdiv. apply Rmult_le_pos; [exact Hb |]. left.
      apply Rinv_0_lt_compat. exact Hd. }
    replace b with (INR (n - 1) * (b / INR (n - 1))) at 2 by (field; lra).
    apply Rmult_le_compat_r; assumption.
  - assert (i = 0%nat) by lia. subst i. simpl. lra.
Qed.

Lemma linspace0_lt (b : R) (n i j : nat) :
  0 < b -> (i < j < n)%nat ->
  nth i (np.linspace_nat 0 b n) 0 < nth j (np.linspace_nat 0 b n) 0.
Proof.
  intros Hb Hij. rewrite !linspace0_nth by lia.
  assert (Hd : 0 < INR (n - 1)) by (apply lt_0_INR; lia).
  assert (Hq : 0 < b / INR (n - 1)).
  { unfold Rdiv. apply Rmult_lt_0_compat; [exact Hb |].
    apply Rinv_0_lt_compat. exact Hd. }
  apply Rmult_lt_compat_r; [exact Hq |]. apply lt_INR. lia.
Qed.

Lemma linspace0_last (b : R) (n : nat) :
  (2 <= n)%nat -> nth (n - 1) (np.linspace_nat 0 b n) 0 = b.
Proof.
  intros Hn. rewrite linspace_nat_nth by lia. rewrite Nat.eqb_refl. reflexivity.
Qed.

Lemma exp_neg_le_1 (x : R) : 0 <= x -> exp (- x) <= 1.
Proof.
  intros Hx. rewrite <- exp_0. destruct (Req_dec x 0) as [-> | Hnz].
  - right. f_equal. lra.
  - left. apply exp_increasing. lra.
Qed.

Lemma exp_neg_antitone (x y : R) : x <= y -> exp (- y) <= exp (- x).
Proof.
  intros H. destruct (Req_dec x y) as [-> | Hne]; [lra |].
  left. apply exp_increasing. lra.
Qed.

(** ** The decay envelope and the tone under it *)

Lemma envelope_nth (decay : R) (tt : list R) (i : nat) :
  (i < length tt)%nat -> nth i (envelope decay tt) 0 = exp (- nth i tt 0 / decay).
Proof.
  intros Hi. unfold envelope.
  apply (nth_map_in (fun ti => exp (- ti / decay)) tt i 0 0 Hi).
Qed.

Lemma div_decay_nonneg (x decay : R) : 0 < decay -> 0 <= x -> 0 <= x / decay.
Proof.
  intros Hd Hx. unfold Rdiv. apply Rmult_le_pos; [exact Hx |].
  left. apply Rinv_0_lt_compat. exact Hd.
Qed.

(** X5. For positive duration and decay the envelope starts at 1, never
    rises from one sample to a later one, stays between
    [exp(-duration / decay)] and 1, and ends at [exp(-duration / decay)] when
    the axis has two entries or more; the times it is taken at lie in
    [0, duration]. *)
Theorem envelope_decays
    (duration : R) (sample_rate : Z) (decay : R) (tt : list R) :
  0 < duration -> 0 < decay ->
  t duration sample_rate = Ok tt ->
  let env := envelope decay tt in
  length env = length tt /\
  (tt <> [] -> nth 0 env 0 = 1) /\
  (forall i, (i < length tt)%nat ->
     0 <= nth i tt 0 <= duration /\
     exp (- duration / decay) <= nth i env 0 <= 1) /\
  (forall i j, (i <= j < length tt)%nat -> nth j env 0 <= nth i env 0) /\
  ((2 <= length tt)%nat -> nth (length tt - 1) env 0 = exp (- duration / decay)).
Proof.
  intros Hd Hdec Ht env.
  pose proof (t_length _ _ _ Ht) as L.
  destruct (t_inv _ _ _ Ht) as [_ E].
  set (n := Z.to_nat (num_samples duration sample_rate)) in *.
  assert (Ln : length tt = n) by exact L.
  split; [unfold env, envelope; apply length_map |].
  split; [| split; [| split]].
  - intros Hne. assert (0 < length tt)%nat by (destruct tt; [congruence | simpl; lia]).
    unfold env. rewrite envelope_nth by assumption.
    rewrite E, linspace0_nth by lia. simpl.
    replace (- (0 * (duration / INR (n - 1))) / decay) with 0 by (unfold Rdiv; lra).
    apply exp_0.
  - intros i Hi.
    assert (B : 0 <= nth i tt 0 <= duration).
    { split.
      - apply (linspace_nat_nonneg duration n); [lra |].
        rewrite <- E. apply nth_In. exact Hi.
      - rewrite E. apply linspace0_le; [lra | lia]. }
    split; [exact B |].
    unfold env. rewrite envelope_nth by exact Hi.
    assert (Hinv : 0 < / decay) by (apply Rinv_0_lt_compat; exact Hdec).
    split.
    + replace (- duration / decay) with (- (duration / decay)) by (unfold Rdiv; lra).
      replace (- nth i tt 0 / decay) with (- (nth i tt 0 / decay)) by (unfold Rdiv; lra).
      apply exp_neg_antitone. unfold Rdiv.
      apply Rmult_le_compat_r; lra.
    + replace (- nth i tt 0 / decay) with (- (nth i tt 0 / decay)) by (unfold Rdiv; lra).
      apply exp_neg_le_1. apply div_decay_nonneg; lra.
  - intros i j Hij. unfold env. rewrite !envelope_nth by lia.
    destruct (Nat.eq_dec i j) as [-> | Hne]; [lra |].
    left. apply exp_increasing.
    assert (Hlt : nth i tt 0 < nth j tt 0) by (rewrite E; apply linspace0_lt; [lra | lia]).
    assert (Hinv : 0 < / decay) by (apply Rinv_0_lt_compat; exact Hdec).
    unfold Rdiv. nra.
  - intros H2. unfold env. rewrite envelope_nth by lia.
    rewrite Ln. rewrite E at 1. rewrite linspace0_last by lia. reflexivity.
Qed.

Lemma envelope_decays_witness :
  let tt := np.linspace_nat 0 0.5 (Z.to_nat (num_samples 0.5 44100)) in
  0 < 0.5 /\ 0 < 0.4 /\ t 0.5 44100 = Ok tt /\
  (forall i j, (i <= j < length tt)%nat ->
     nth j (envelope 0.4 tt) 0 <= nth i (envelope 0.4 tt) 0).
Proof.
  intros tt.
  assert (Ht : t 0.5 44100 = Ok tt) by (apply t_ok; rewrite num_samples_kick1; lia).
  split; [lra |]. split; [lra |]. split; [exact Ht |].
  apply (envelope_decays 0.5 44100 0.4 tt ltac:(lra) ltac:(lra) Ht).
Defined.

(** X6. Every sample of the enveloped tone lies under the envelope: its
    absolute value is at most [exp(-t / decay)], hence at most 1. *)
Theorem tone_within_envelope
    (duration : R) (sample_rate : Z) (base_freq decay : R) (tt : list R) (i : nat) :
  0 < duration -> 0 < decay ->
  t duration sample_rate = Ok tt -> (i < length tt)%nat ->
  Rabs (nth i (kick duration sample_rate base_freq decay tt) 0)
  <= nth i (envelope decay tt) 0 <= 1.
Proof.
  intros Hd Hdec Ht Hi.
  destruct (t_inv _ _ _ Ht) as [_ E].
  assert (Hti : 0 <= nth i tt 0).
  { apply (linspace_nat_nonneg duration (Z.to_nat (num_samples duration sample_rate)));
      [lra |]. rewrite <- E. apply nth_In. exact Hi. }
  rewrite kick_nth, envelope_nth by exact Hi.
  set (e := exp (- nth i tt 0 / decay)).
  assert (He : 0 < e <= 1).
  { split; [apply exp_pos |]. unfold e.
    replace (- nth i tt 0 / decay) with (- (nth i tt 0 / decay)) by (unfold Rdiv; lra).
    apply exp_neg_le_1. apply div_decay_nonneg; lra. }
  split; [| lra].
  rewrite Rabs_mult, (Rabs_pos_eq e) by lra.
  set (s := sin _).
  assert (Hs : Rabs s <= 1).
  { pose proof (SIN_bound (2 * PI * nth i (np.cumsum (freq duration base_freq tt)) 0
                           / IZR sample_rate)) as B.
    fold s in B. unfold Rabs. destruct (Rcase_abs s); lra. }
  pose proof (Rabs_pos s). nra.
Qed.

Lemma tone_within_envelope_witness :
  let tt := np.linspace_nat 0 0.5 (Z.to_nat (num_samples 0.5 44100)) in
  0 < 0.5 /\ 0 < 0.4 /\ t 0.5 44100 = Ok tt /\ (100 < length tt)%nat /\
  Rabs (nth 100 (kick 0.5 44100 55 0.4 tt) 0) <= nth 100 (envelope 0.4 tt) 0 <= 1.
Proof.
  intros tt.
  assert (Ht : t 0.5 44100 = Ok tt) by (apply t_ok; rewrite num_samples_kick1; lia).
  assert (Hl : (100 < length tt)%nat).
  { unfold tt. rewrite linspace_nat_length, num_samples_kick1. lia. }
  split; [lra |]. split; [lra |]. split; [exact Ht |]. split; [exact Hl |].
  apply (tone_within_envelope 0.5 44100 55 0.4 tt 100 ltac:(lra) ltac:(lra) Ht Hl).
Defined.

(** ** The running sum and the phase *)

Lemma cumsum_from_nth (a : list R) : forall acc i,
  (i < length a)%nat ->
  nth i (np.cumsum_from acc a) 0 = acc + array_sum (firstn (S i) a).
Proof.
  induction a as [| x a IH]; intros acc i Hi; simpl in Hi; [lia |].
  destruct i as [| i].
  - simpl. lra.
  - change (nth (S i) (np.cumsum_from acc (x :: a)) 0)
      with (nth i (np.cumsum_from (acc + x) a) 0).
    rewrite IH by lia.
    change (array_sum (firstn (S (S i)) (x :: a)))
      with (x + array_sum (firstn (S i) a)).
    lra.
Qed.

(** X7. [np.cumsum] keeps the length, and its entry [i] is the sum of the
    entries 0 to [i] of the input; the last entry is the sum of the array. *)
Theorem cumsum_prefix_sums (a : list R) :
  length (np.cumsum a) = length a /\
  (forall i, (i < length a)%nat ->
     nth i (np.cumsum a) 0 = array_sum (firstn (S i) a)) /\
  (a <> [] -> last (np.cumsum a) 0 = array_sum a).
Proof.
  unfold np.cumsum. split; [apply cumsum_from_length |]. split.
  - intros i Hi. rewrite cumsum_from_nth by exact Hi. lra.
  - intros Hne.
    assert (0 < length a)%nat by (destruct a; [congruence | simpl; lia]).
    rewrite last_nth, cumsum_from_length, cumsum_from_nth by lia.
    replace (S (length a - 1)) with (length a) by lia.
    rewrite firstn_all. lra.
Qed.

Lemma phase_nth (sample_rate : Z) (f : list R) (i : nat) :
  (i < length f)%nat ->
  nth i (phase sample_rate f) 0 = 2 * PI * nth i (np.cumsum f) 0 / IZR sample_rate.
Proof.
  intros Hi. unfold phase.
  apply (nth_map_in (fun c => 2 * PI * c / IZR sample_rate) (np.cumsum f) i 0 0).
  unfold np.cumsum. rewrite cumsum_from_length. exact Hi.
Qed.

(** X8. The phase starts at [2 pi base_freq / sample_rate] (the running sum
    includes the first frequency), and from one sample to the next it grows
    by [2 pi freq / sample_rate] for the frequency of the later sample: a
    positive step, never more than the first. *)
Theorem phase_accumulates
    (duration : R) (sample_rate : Z) (base_freq : R) (tt : list R) :
  0 < duration -> (0 < sample_rate)%Z -> 0 < base_freq ->
  t duration sample_rate = Ok tt ->
  let ph := phase sample_rate (freq duration base_freq tt) in
  let step := 2 * PI * base_freq / IZR sample_rate in
  length ph = length tt /\
  (tt <> [] -> nth 0 ph 0 = step) /\
  (forall i, (S i < length tt)%nat ->
     nth (S i) ph 0 - nth i ph 0
     = 2 * PI * freq_at duration base_freq (nth (S i) tt 0) / IZR sample_rate /\
     0 < nth (S i) ph 0 - nth i ph 0 <= step).
Proof.
  intros Hd Hsr Hb Ht ph step.
  apply IZR_lt in Hsr.
  assert (Lf : length (freq duration base_freq tt) = length tt)
    by (unfold freq; apply length_map).
  pose proof PI_RGT_0 as Hpi.
  assert (Hk : 0 < 2 * PI / IZR sample_rate).
  { unfold Rdiv. apply Rmult_lt_0_compat; [lra |]. apply Rinv_0_lt_compat. exact Hsr. }
  split; [unfold ph; rewrite phase_length; exact Lf |]. split.
  - intros Hne. assert (H0 : (0 < length tt)%nat) by (destruct tt; [congruence | simpl; lia]).
    unfold ph, step. rewrite phase_nth by lia.
    unfold np.cumsum. rewrite cumsum_from_nth by lia.
    destruct tt as [| t0 tt']; [congruence |].
    assert (E0 : t0 = 0).
    { change t0 with (nth 0 (t0 :: tt') 0).
      rewrite (t_nth _ _ _ 0 Ht) by (simpl; lia). simpl. lra. }
    subst t0. simpl. rewrite freq_at_0. unfold Rdiv. ring.
  - intros i Hi.
    assert (Hti : 0 <= nth (S i) tt 0).
    { destruct (t_inv _ _ _ Ht) as [_ E].
      apply (linspace_nat_nonneg duration (Z.to_nat (num_samples duration sample_rate)));
        [lra |]. rewrite <- E. apply nth_In. exact Hi. }
    pose proof (freq_at_bounds duration base_freq _ Hd Hb Hti) as HF.
    assert (Ediff : nth (S i) ph 0 - nth i ph 0
                    = 2 * PI * freq_at duration base_freq (nth (S i) tt 0)
                      / IZR sample_rate).
    { unfold ph. rewrite !phase_nth by lia. unfold np.cumsum.
      rewrite cumsum_from_nth_S by lia. rewrite freq_nth by exact Hi.
      unfold Rdiv. ring. }
    split; [exact Ediff |]. rewrite Ediff. unfold step.
    replace (2 * PI * freq_at duration base_freq (nth (S i) tt 0) / IZR sample_rate)
      with (2 * PI / IZR sample_rate * freq_at duration base_freq (nth (S i) tt 0))
      by (unfold Rdiv; ring).
    replace (2 * PI * base_freq / IZR sample_rate)
      with (2 * PI / IZR sample_rate * base_freq) by (unfold Rdiv; ring).
    split.
    + apply Rmult_lt_0_compat; lra.
    + apply Rmult_le_compat_l; lra.
Qed.

Lemma phase_accumulates_witness :
  let tt := np.linspace_nat 0 0.5 (Z.to_nat (num_samples 0.5 44100)) in
  0 < 0.5 /\ (0 < 44100)%Z /\ 0 < 55 /\ t 0.5 44100 = Ok tt /\
  (tt <> [] -> nth 0 (phase 44100 (freq 0.5 55 tt)) 0 = 2 * PI * 55 / IZR 44100).
Proof.
  intros tt.
  assert (Ht : t 0.5 44100 = Ok tt) by (apply t_ok; rewrite num_samples_kick1; lia).
  split; [lra |]. split; [lia |]. split; [lra |]. split; [exact Ht |].
  apply (phase_accumulates 0.5 44100 55 tt ltac:(lra) ltac:(lia) ltac:(lra) Ht).
Defined.

(** ** Where the sweep ends *)

Lemma exp_10_gt_4 : 4 < exp 10.
Proof. pose proof (exp_ineq1 10 ltac:(lra)). lra. Qed.

Lemma exp_neg_10 : exp (-10) = exp (Ropp 10).
Proof. reflexivity. Qed.

Lemma exp_neg_10_lt_quarter : exp (-10) < / 4.
Proof.
  rewrite exp_neg_10, exp_Ropp. apply Rinv_lt_contravar.
  - pose proof exp_10_gt_4. nra.
  - exact exp_10_gt_4.
Qed.

(** X9. With two samples or more the last frequency of the sweep is
    [base_freq * exp(-10)], whatever the duration: the sweep ends far below a
    quarter of the base frequency. *)
Theorem sweep_end_frequency
    (duration : R) (sample_rate : Z) (base_freq : R) (tt : list R) :
  0 < duration -> 0 < base_freq ->
  t duration sample_rate = Ok tt -> (2 <= length tt)%nat ->
  nth (length tt - 1) (freq duration base_freq tt) 0 = base_freq * exp (-10) /\
  last (freq duration base_freq tt) 0 = base_freq * exp (-10) /\
  base_freq * exp (-10) < base_freq / 4.
Proof.
  intros Hd Hb Ht H2.
  pose proof (t_length _ _ _ Ht) as L.
  destruct (t_inv _ _ _ Ht) as [_ E].
  assert (Elast : nth (length tt - 1) (freq duration base_freq tt) 0
                  = base_freq * exp (-10)).
  { rewrite freq_nth by lia. rewrite L. rewrite E at 1.
    rewrite linspace0_last by lia. unfold freq_at.
    replace (- duration / (duration * 0.1)) with (-10); [reflexivity |].
    apply (Rmult_eq_reg_r (duration * 0.1)); [| lra].
    unfold Rdiv. rewrite Rmult_assoc, Rinv_l by lra. lra. }
  split; [exact Elast |]. split.
  - rewrite last_nth. unfold freq at 1. rewrite length_map. exact Elast.
  - unfold Rdiv. apply Rmult_lt_compat_l; [exact Hb | exact exp_neg_10_lt_quarter].
Qed.

Lemma sweep_end_frequency_witness :
  let tt := np.linspace_nat 0 0.5 (Z.to_nat (num_samples 0.5 44100)) in
  0 < 0.5 /\ 0 < 55 /\ t 0.5 44100 = Ok tt /\ (2 <= length tt)%nat /\
  last (freq 0.5 55 tt) 0 = 55 * exp (-10).
Proof.
  intros tt.
  assert (Ht : t 0.5 44100 = Ok tt) by (apply t_ok; rewrite num_samples_kick1; lia).
  assert (Hl : (2 <= length tt)%nat).
  { unfold tt. rewrite linspace_nat_length, num_samples_kick1. lia. }
  split; [lra |]. split; [lra |]. split; [exact Ht |]. split; [exact Hl |].
  apply (sweep_end_frequency 0.5 44100 55 tt ltac:(lra) ltac:(lra) Ht Hl).
Defined.

(** ** The click *)

Lemma click_envelope_ok (sample_rate : Z) :
  (0 <= click_samples sample_rate)%Z ->
  click_envelope sample_rate
  = Ok (map (fun x => exp (- x))
            (np.linspace_nat 0 10 (Z.to_nat (click_samples sample_rate)))).
Proof.
  intros H. unfold click_envelope, np.linspace.
  destruct (Z.ltb_spec (click_samples sample_rate) 0); [lia | reflexivity].
Qed.

(** X10. The envelope of the click has [click_samples] entries, starts at 1,
    falls strictly, stays at or above [exp(-10)] and ends there when it has
    two entries or more. *)
Theorem click_envelope_shape (sample_rate : Z) (ce : list R) :
  click_envelope sample_rate = Ok ce ->
  let cs := Z.to_nat (click_samples sample_rate) in
  length ce = cs /\
  (ce <> [] -> nth 0 ce 0 = 1) /\
  (forall i, (i < cs)%nat -> exp (-10) <= nth i ce 0 <= 1) /\
  (forall i j, (i < j < cs)%nat -> nth j ce 0 < nth i ce 0) /\
  ((2 <= cs)%nat -> nth (cs - 1) ce 0 = exp (-10)).
Proof.
  intros H cs.
  assert (Hcs : (0 <= click_samples sample_rate)%Z).
  { unfold click_envelope, np.linspace in H.
    destruct (Z.ltb_spec (click_samples sample_rate) 0); [discriminate | lia]. }
  rewrite click_envelope_ok in H by exact Hcs. injection H as <-. fold cs.
  assert (Hn : forall i, (i < cs)%nat ->
            nth i (map (fun x => exp (- x)) (np.linspace_nat 0 10 cs)) 0
            = exp (- nth i (np.linspace_nat 0 10 cs) 0)).
  { intros i Hi.
    apply (nth_map_in (fun x => exp (- x)) (np.linspace_nat 0 10 cs) i 0 0).
    rewrite linspace_nat_length. exact Hi. }
  split; [rewrite length_map; apply linspace_nat_length |].
  split; [| split; [| split]].
  - intros Hne.
    assert (0 < cs)%nat.
    { destruct cs; [| lia]. exfalso. apply Hne. reflexivity. }
    rewrite Hn by lia. rewrite linspace0_nth by lia. simpl.
    rewrite Rmult_0_l, Ropp_0. apply exp_0.
  - intros i Hi. rewrite Hn by exact Hi. split.
    + rewrite exp_neg_10. apply exp_neg_antitone.
      apply linspace0_le; [lra | exact Hi].
    + apply exp_neg_le_1.
      apply (linspace_nat_nonneg 10 cs); [lra |].
      apply nth_In. rewrite linspace_nat_length. exact Hi.
  - intros i j Hij. rewrite !Hn by lia. apply exp_increasing.
    pose proof (linspace0_lt 10 cs i j ltac:(lra) Hij). lra.
  - intros H2. rewrite Hn by lia. rewrite linspace0_last by lia.
    symmetry. apply exp_neg_10.
Qed.

Lemma click_envelope_shape_witness :
  exists ce,
    click_envelope 44100 = Ok ce /\
    length ce = Z.to_nat (click_samples 44100) /\
    (forall i j, (i < j < Z.to_nat (click_samples 44100))%nat ->
                 nth j ce 0 < nth i ce 0).
Proof.
  eexists. split.
  - apply click_envelope_ok. rewrite click_samples_44100. lia.
  - split;
      apply (click_envelope_shape 44100 _
               (click_envelope_ok 44100 ltac:(rewrite click_samples_44100; lia))).
Defined.

Lemma click_abs_bound (gauss : nat -> R) (sample_rate : Z) (c : list R) (i : nat) :
  click gauss sample_rate = Ok c -> (i < Z.to_nat (click_samples sample_rate))%nat ->
  Rabs (nth i c 0) <= 0.3 * Rabs (gauss i).
Proof.
  intros Hc Hi.
  destruct (click_inv _ _ _ Hc) as [Hcs _].
  destruct (click_ok gauss sample_rate Hcs) as [c' [Hc' [_ Nc]]].
  rewrite Hc in Hc'. injection Hc' as <-.
  rewrite Nc by exact Hi.
  set (e := exp _).
  assert (He : 0 < e <= 1).
  { split; [apply exp_pos |]. apply exp_neg_le_1.
    apply (linspace_nat_nonneg 10 (Z.to_nat (click_samples sample_rate))); [lra |].
    apply nth_In. rewrite linspace_nat_length. exact Hi. }
  rewrite Rabs_mult, (Rabs_pos_eq e) by lra.
  replace (0 + 0.3 * gauss i) with (0.3 * gauss i) by lra.
  rewrite Rabs_mult, (Rabs_pos_eq 0.3) by lra.
  pose proof (Rabs_pos (gauss i)). nra.
Qed.

(** X11. Before normalization a sample beyond the click is at most 1 in
    absolute value, and a sample under the click at most
    [1 + 0.3 |gauss i|]: only the click can push the buffer out of [-1, 1]. *)
Theorem buffer_bound_before_normalization
    (gauss : nat -> R) (duration : R) (sample_rate : Z) (base_freq decay : R)
    (k : list R) (i : nat) :
  0 < duration -> 0 < decay ->
  kick_click gauss duration sample_rate base_freq decay = Ok k ->
  (i < length k)%nat ->
  ((Z.to_nat (click_samples sample_rate) <= i)%nat -> Rabs (nth i k 0) <= 1) /\
  ((i < Z.to_nat (click_samples sample_rate))%nat ->
     Rabs (nth i k 0) <= 1 + 0.3 * Rabs (gauss i)).
Proof.
  intros Hd Hdec Hk Hi.
  destruct (kick_click_inv _ _ _ _ _ _ Hk) as [tt [c [Ht [Hc Hadd]]]].
  pose proof (iadd_prefix_length _ _ _ _ Hadd) as L.
  destruct (t_inv _ _ _ Ht) as [_ E].
  assert (Htone : Rabs (nth i (kick duration sample_rate base_freq decay tt) 0) <= 1).
  { apply (kick_abs_le_1 duration sample_rate base_freq decay tt); [exact Hdec | |].
    - intros ti Hti. rewrite E in Hti.
      apply (linspace_nat_nonneg duration _ ti ltac:(lra) Hti).
    - apply nth_In. lia. }
  split; intros Hc'.
  - rewrite (iadd_prefix_beyond _ _ _ _ i Hadd) by exact Hc'. exact Htone.
  - destruct (click_inv _ _ _ Hc) as [_ Lc].
    rewrite (iadd_prefix_inside _ _ _ _ i Hadd Lc Hc') by lia.
    pose proof (click_abs_bound gauss sample_rate c i Hc Hc') as Hb.
    eapply Rle_trans; [apply Rabs_triang |]. lra.
Qed.

Lemma buffer_bound_before_normalization_witness :
  exists k,
    0 < 0.5 /\ 0 < 0.4 /\
    kick_click (fun _ => 2) 0.5 44100 55 0.4 = Ok k /\ (300 < length k)%nat /\
    Rabs (nth 300 k 0) <= 1.
Proof.
  destruct (kick1_buffer (fun _ => 2)) as [k [Hk Lk]].
  assert (Hl : (300 < length k)%nat) by lia.
  exists k. split; [lra |]. split; [lra |]. split; [exact Hk |]. split; [exact Hl |].
  apply (buffer_bound_before_normalization (fun _ => 2) 0.5 44100 55 0.4 k 300
           ltac:(lra) ltac:(lra) Hk Hl).
  rewrite click_samples_44100. lia.
Defined.

(** X12. A call looks at the first [click_samples] deviates only: two streams
    that agree there give the same buffer and the same outcome. *)
Theorem only_click_draws_matter
    (gauss gauss' : nat -> R) (duration : R) (sample_rate : Z) (base_freq decay : R)
    (filename : string) :
  (forall i, (i < draws_used sample_rate)%nat -> gauss i = gauss' i) ->
  kick_click gauss duration sample_rate base_freq decay
  = kick_click gauss' duration sample_rate base_freq decay /\
  generate_kick gauss duration sample_rate base_freq decay filename
  = generate_kick gauss' duration sample_rate base_freq decay filename.
Proof.
  intros H.
  assert (En : noise gauss sample_rate = noise gauss' sample_rate).
  { unfold noise, np.random_normal.
    destruct (click_samples sample_rate <? 0)%Z; [reflexivity |].
    f_equal. apply map_ext_in. intros i Hi. apply in_seq in Hi.
    rewrite H; [reflexivity |]. unfold draws_used. lia. }
  assert (Ek : kick_click gauss duration sample_rate base_freq decay
               = kick_click gauss' duration sample_rate base_freq decay).
  { unfold kick_click, click. rewrite En. reflexivity. }
  split; [exact Ek |]. unfold generate_kick. rewrite Ek. reflexivity.
Qed.

Lemma only_click_draws_matter_witness :
  (forall i, (i < draws_used 44100)%nat ->
             (fun j => if (j <? 220)%nat then 1 else 0) i = (fun _ => 1) i) /\
  generate_kick (fun j => if (j <? 220)%nat then 1 else 0) 0.5 44100 55 0.4 "kick.wav"
  = generate_kick (fun _ => 1) 0.5 44100 55 0.4 "kick.wav".
Proof.
  assert (H : forall i, (i < draws_used 44100)%nat ->
            (fun j => if (j <? 220)%nat then 1 else 0) i = (fun _ => 1) i).
  { intros i Hi. unfold draws_used in Hi. rewrite click_samples_44100 in Hi.
    cbv beta. destruct (Nat.ltb_spec i 220); [reflexivity | lia]. }
  split; [exact H |].
  apply (only_click_draws_matter _ _ 0.5 44100 55 0.4 "kick.wav" H).
Defined.

(** ** Normalization again *)

Lemma peak_scaled_by (k : list R) (p c : R) :
  peak k = Ok p -> 0 < c -> peak (map (fun x => c * x) k) = Ok (c * p).
Proof.
  intros Hp Hc. destruct (peak_spec k p Hp) as [_ [[x [Hx Ex]] Hub]].
  unfold peak, np.abs. apply max_intro.
  - apply in_map_iff. exists (c * x). split.
    + rewrite Rabs_mult, (Rabs_pos_eq c), Ex by lra. reflexivity.
    + apply (in_map (fun x => c * x)). exact Hx.
  - intros y Hy. apply in_map_iff in Hy. destruct Hy as [z [<- Hz]].
    apply in_map_iff in Hz. destruct Hz as [w [<- Hw]].
    rewrite Rabs_mult, (Rabs_pos_eq c) by lra.
    apply Rmult_le_compat_l; [lra | apply Hub; exact Hw].
Qed.

(** X13. Normalizing a buffer with a positive peak a second time changes
    nothing, and a buffer scaled by a positive gain normalizes to the same
    result: the output does not depend on the overall level of the input. *)
Theorem normalize_idempotent_gain_invariant (k n : list R) (p c : R) :
  peak k = Ok p -> 0 < p -> normalize k = Ok n -> 0 < c ->
  normalize n = Ok n /\
  normalize (map (fun x => c * x) k) = Ok n.
Proof.
  intros Hp Hpos Hn Hc.
  unfold normalize in Hn. rewrite Hp in Hn. cbn [bind] in Hn. injection Hn as <-.
  split.
  - unfold normalize. rewrite (peak_scaled k p Hp Hpos). cbn [bind]. f_equal.
    rewrite <- (map_id (map (fun x => x / p) k)) at 2.
    apply map_ext. intros x. unfold Rdiv. rewrite Rinv_1. lra.
  - unfold normalize. rewrite (peak_scaled_by k p c Hp Hc). cbn [bind]. f_equal.
    rewrite map_map. apply map_ext. intros x. field. lra.
Qed.

Lemma normalize_idempotent_gain_invariant_witness :
  peak [2; -1] = Ok 2 /\ 0 < 2 /\
  normalize [2; -1] = Ok (map (fun x => x / 2) [2; -1]) /\ 0 < 3 /\
  normalize (map (fun x => 3 * x) [2; -1]) = Ok (map (fun x => x / 2) [2; -1]).
Proof.
  assert (Hn : normalize [2; -1] = Ok (map (fun x => x / 2) [2; -1])).
  { unfold normalize. rewrite peak_two_samples. reflexivity. }
  split; [exact peak_two_samples |]. split; [lra |]. split; [exact Hn |].
  split; [lra |].
  apply (normalize_idempotent_gain_invariant [2; -1] _ 2 3 peak_two_samples
           ltac:(lra) Hn ltac:(lra)).
Defined.

(** ** Quantization again *)

Lemma trunc_opp (x : R) : trunc (- x) = (- trunc x)%Z.
Proof.
  destruct (Rtotal_order x 0) as [Hneg | [-> | Hpos]].
  - unfold trunc. destruct (Rle_dec 0 (- x)) as [_ | C]; [| lra].
    destruct (Rle_dec 0 x) as [C | _]; [lra |]. lia.
  - rewrite Ropp_0. rewrite (trunc_IZR 0). reflexivity.
  - unfold trunc. destruct (Rle_dec 0 (- x)) as [C | _]; [lra |].
    destruct (Rle_dec 0 x) as [_ | C]; [| lra].
    rewrite Ropp_involutive. reflexivity.
Qed.

Lemma trunc_monotone (x y : R) : x <= y -> (trunc x <= trunc y)%Z.
Proof.
  intros H. pose proof (trunc_toward_zero x) as [Px Nx].
  pose proof (trunc_toward_zero y) as [Py Ny].
  destruct (Rle_dec 0 x) as [Hx | Hx].
  - destruct (Px Hx) as [Bx _]. destruct (Py ltac:(lra)) as [By _].
    assert (IZR (trunc x) < IZR (trunc y) + 1) by lra.
    rewrite <- (plus_IZR _ 1) in H0. apply lt_IZR in H0. lia.
  - destruct (Nx ltac:(lra)) as [Bx Sx].
    destruct (Rle_dec 0 y) as [Hy | Hy].
    + destruct (Py Hy) as [_ Sy]. lia.
    + destruct (Ny ltac:(lra)) as [By _].
      assert (IZR (trunc x) - 1 < IZR (trunc y)) by lra.
      rewrite <- (minus_IZR _ 1) in H0. apply lt_IZR in H0. lia.
Qed.

(** X14. On [-1, 1] the quantizer is odd, order preserving, and off by less
    than one step: [q(-s) = -q(s)], [s1 <= s2] gives [q(s1) <= q(s2)], and
    [|q(s) - 32767 s| < 1] with [|q(s)| <= |32767 s|]. *)
Theorem quantize_odd_monotone (s s' : R) :
  -1 <= s <= 1 -> -1 <= s' <= 1 ->
  let q := fun x => np.astype_int16 (x * 32767) in
  q (- s) = (- q s)%Z /\
  (s <= s' -> (q s <= q s')%Z) /\
  Rabs (IZR (q s) - s * 32767) < 1 /\
  Rabs (IZR (q s)) <= Rabs (s * 32767).
Proof.
  intros Hs Hs' q. unfold q.
  destruct (astype_int16_in_unit s Hs) as [E _].
  destruct (astype_int16_in_unit s' Hs') as [E' _].
  destruct (astype_int16_in_unit (- s) ltac:(lra)) as [En _].
  rewrite E, E', En.
  split; [| split; [| split]].
  - replace (- s * 32767) with (- (s * 32767)) by lra. apply trunc_opp.
  - intros H. apply trunc_monotone. lra.
  - destruct (Rle_dec 0 (s * 32767)) as [Hp | Hn].
    + destruct (proj1 (trunc_toward_zero _) Hp) as [B _].
      unfold Rabs. destruct (Rcase_abs _); lra.
    + destruct (proj2 (trunc_toward_zero (s * 32767)) ltac:(lra)) as [B _].
      unfold Rabs. destruct (Rcase_abs _); lra.
  - destruct (Rle_dec 0 (s * 32767)) as [Hp | Hn].
    + destruct (proj1 (trunc_toward_zero _) Hp) as [B P]. apply IZR_le in P.
      rewrite !Rabs_pos_eq by lra. lra.
    + destruct (proj2 (trunc_toward_zero (s * 32767)) ltac:(lra)) as [B P].
      apply IZR_le in P. rewrite (Rabs_left (s * 32767)) by lra.
      unfold Rabs. destruct (Rcase_abs _); lra.
Qed.

Lemma quantize_odd_monotone_witness :
  -1 <= 0.25 <= 1 /\ -1 <= 0.75 <= 1 /\
  np.astype_int16 (- (0.25) * 32767) = (- np.astype_int16 (0.25 * 32767))%Z /\
  (0.25 <= 0.75 ->
   (np.astype_int16 (0.25 * 32767) <= np.astype_int16 (0.75 * 32767))%Z).
Proof.
  assert (H1 : -1 <= 0.25 <= 1) by lra.
  assert (H2 : -1 <= 0.75 <= 1) by lra.
  split; [exact H1 |]. split; [exact H2 |].
  destruct (quantize_odd_monotone 0.25 0.75 H1 H2) as [A [B _]].
  split; [exact A | exact B].
Defined.

(** X15. With a positive peak, frame [i] is +32767 exactly when sample [i]
    equals the peak, -32767 exactly when it equals minus the peak, and a frame
    never has the sign opposite to its sample. *)
Theorem full_scale_frames (k : list R) (p : R) (i : nat) :
  peak k = Ok p -> 0 < p -> (i < length k)%nat ->
  let q := nth i (kick_int (map (fun x => x / p) k)) 0%Z in
  (q = 32767%Z <-> nth i k 0 = p) /\
  (q = (-32767)%Z <-> nth i k 0 = - p) /\
  (0 <= nth i k 0 -> (0 <= q)%Z) /\
  (nth i k 0 <= 0 -> (q <= 0)%Z).
Proof.
  intros Hp Hpos Hi q.
  set (x := nth i k 0).
  assert (Hx : Rabs x <= p).
  { destruct (peak_spec k p Hp) as [_ [_ Hub]]. apply Hub. apply nth_In. exact Hi. }
  assert (Eq : q = np.astype_int16 (x / p * 32767)).
  { unfold q, kick_int. rewrite map_map.
    apply (nth_map_in (fun y => np.astype_int16 (y / p * 32767)) k i 0%Z 0 Hi). }
  assert (Hs : -1 <= x / p <= 1).
  { apply (normalized_in_unit k p Hp Hpos). apply (in_map (fun y => y / p)).
    apply nth_In. exact Hi. }
  destruct (astype_int16_in_unit _ Hs) as [E B]. rewrite E in Eq.
  assert (Hinv : 0 < / p) by (apply Rinv_0_lt_compat; exact Hpos).
  assert (Hxp : x = x / p * p) by (field; lra).
  pose proof (trunc_toward_zero (x / p * 32767)) as [TP TN].
  assert (Hpos_sign : 0 <= x -> (0 <= q)%Z).
  { intros H0. rewrite Eq. apply TP. unfold Rdiv.
    apply Rmult_le_pos; [apply Rmult_le_pos; lra | lra]. }
  assert (Hneg_sign : x <= 0 -> (q <= 0)%Z).
  { intros H0. rewrite Eq. apply TN. unfold Rdiv.
    assert (x * / p <= 0) by nra. lra. }
  split; [| split; [| split; [exact Hpos_sign | exact Hneg_sign]]].
  - split; intros H.
    + rewrite Eq in H.
      destruct (Rle_dec 0 (x / p * 32767)) as [Hn | Hn].
      * destruct (TP Hn) as [T _]. rewrite H in T. nra.
      * destruct (TN ltac:(lra)) as [_ S]. lia.
    + rewrite Eq, H. replace (p / p * 32767) with (IZR 32767) by (field; lra).
      apply trunc_IZR.
  - split; intros H.
    + rewrite Eq in H.
      destruct (Rle_dec 0 (x / p * 32767)) as [Hn | Hn].
      * destruct (TP Hn) as [_ S]. lia.
      * destruct (TN ltac:(lra)) as [T _]. rewrite H in T. nra.
    + rewrite Eq, H. replace (- p / p * 32767) with (IZR (-32767)) by (field; lra).
      apply trunc_IZR.
Qed.

Lemma full_scale_frames_witness :
  peak [2; -1] = Ok 2 /\ 0 < 2 /\ (0 < length [2; -1]%R)%nat /\
  (nth 0 (kick_int (map (fun x => x / 2) [2; -1])) 0%Z = 32767%Z
   <-> nth 0 [2; -1] 0 = 2).
Proof.
  split; [exact peak_two_samples |]. split; [lra |]. split; [simpl; lia |].
  apply (full_scale_frames [2; -1] 2 0 peak_two_samples ltac:(lra) ltac:(simpl; lia)).
Defined.

(** ** The writer's domain and the file it leaves *)

(** X16. The writer succeeds exactly when the rate is positive and below
    2^31 and the 36 + 2 n bytes after the RIFF size field fit in 32 bits.
    Otherwise an exception leaves the block. For a rate of zero or below
    [setframerate] raises "bad frame rate", the [close] on leaving the block
    then finds no rate set, and what leaves is "sampling rate not specified".
    For a rate or a length too large for the header it is a [struct] range
    error, raised again by [close]. *)
Theorem write_wav_domain (sample_rate : Z) (frames : list Z) :
  ((exists wav, write_wav sample_rate frames = Ok wav) <->
   (0 < sample_rate < 2147483648)%Z /\
   (36 + 2 * Z.of_nat (length frames) < 4294967296)%Z) /\
  ((sample_rate <= 0)%Z ->
   write_wav sample_rate frames = Raise WaveError_rate_not_specified) /\
  ((0 < sample_rate)%Z ->
   (2147483648 <= sample_rate \/
    4294967296 <= 36 + 2 * Z.of_nat (length frames))%Z ->
   write_wav sample_rate frames = Raise StructError_out_of_range).
Proof.
  split; [| split].
  - split.
    + intros [wav H]. apply write_wav_inv in H. destruct H as [A [B _]]. split; assumption.
    + intros [A B]. destruct (write_wav_ok sample_rate frames A B) as [wav [H _]].
      exists wav. exact H.
  - apply write_wav_bad_rate.
  - intros Hsr Hbig.
    destruct (write_wav_cases sample_rate frames Hsr) as [[wav H] | H]; [| exact H].
    apply write_wav_inv in H. lia.
Qed.

Lemma le_bytes_range (k : nat) : forall x,
  Forall (fun b => (0 <= b < 256)%Z) (struct.le_bytes k x).
Proof.
  induction k as [| k IH]; intros x; simpl; constructor.
  - apply Z.mod_pos_bound. lia.
  - apply IH.
Qed.

Lemma tobytes_range (frames : list Z) :
  Forall (fun b => (0 <= b < 256)%Z) (np.tobytes frames).
Proof.
  unfold np.tobytes. induction frames as [| q frames IH]; [constructor |].
  cbn [flat_map]. apply Forall_app. split; [apply int16_bytes_range | exact IH].
Qed.

Lemma tag_range (s : string) :
  Forall (fun b => (0 <= b < 256)%Z) (struct.tag s).
Proof.
  unfold struct.tag. apply Forall_map. apply Forall_forall. intros c _.
  pose proof (N_ascii_bounded c). lia.
Qed.

(** X17. A file the writer leaves has 44 + 2 n bytes, each in [0, 256); it
    opens with the tag RIFF followed by its own length less 8, and the 32-bit
    field before the samples holds the number of data bytes, 2 n. *)
Theorem written_file_well_formed
    (sample_rate : Z) (frames : list Z) (wav : wave.Wave_write) :
  write_wav sample_rate frames = Ok wav ->
  let file := wave.file wav in
  length file = (44 + 2 * length frames)%nat /\
  Forall (fun b => (0 <= b < 256)%Z) file /\
  (exists rest, file = struct.tag "RIFF"
                       ++ struct.le_bytes 4 (Z.of_nat (length file) - 8) ++ rest) /\
  (exists fields, length fields = 40%nat /\
     file = fields ++ struct.le_bytes 4 (2 * Z.of_nat (length frames))
            ++ np.tobytes frames) /\
  skipn 44 file = np.tobytes frames.
Proof.
  intros H file. unfold file.
  apply write_wav_inv in H. destruct H as [_ [_ ->]].
  pose proof (expected_file_length sample_rate frames) as L.
  split; [exact L |]. split; [| split; [| split]].
  - unfold expected_file.
    repeat (apply Forall_app; split);
      try apply tag_range; try apply le_bytes_range; apply tobytes_range.
  - rewrite L. unfold expected_file. eexists. f_equal. f_equal.
    f_equal. lia.
  - exists (struct.tag "RIFF" ++ struct.le_bytes 4 (36 + 2 * Z.of_nat (length frames))
            ++ struct.tag "WAVE" ++ struct.tag "fmt "
            ++ struct.le_bytes 4 16 ++ struct.le_bytes 2 1 ++ struct.le_bytes 2 1
            ++ struct.le_bytes 4 sample_rate ++ struct.le_bytes 4 (2 * sample_rate)
            ++ struct.le_bytes 2 2 ++ struct.le_bytes 2 16 ++ struct.tag "data").
    split.
    + rewrite !length_app, !le_bytes_length. reflexivity.
    + unfold expected_file. rewrite <- !app_assoc. reflexivity.
  - unfold expected_file. reflexivity.
Qed.

Lemma written_file_well_formed_witness :
  exists wav,
    write_wav 44100 [32767; -32767; 0]%Z = Ok wav /\
    length (wave.file wav) = (44 + 2 * length [32767; -32767; 0]%Z)%nat /\
    Forall (fun b => (0 <= b < 256)%Z) (wave.file wav).
Proof.
  destruct (write_wav_ok 44100 [32767; -32767; 0]%Z) as [wav [Hw _]];
    [lia | simpl; lia |].
  exists wav. split; [exact Hw |].
  destruct (written_file_well_formed 44100 _ wav Hw) as [L [B _]].
  split; [exact L | exact B].
Defined.

(** ** Calls that succeed, and the script *)

Lemma generate_kick_succeeds_aux
    (gauss : nat -> R) (duration : R) (sample_rate : Z) (base_freq decay : R)
    (filename : string) :
  0 < duration -> 0 < base_freq -> 0 < decay ->
  2 * base_freq < IZR sample_rate -> (sample_rate < 2147483648)%Z ->
  (click_samples sample_rate + 2 <= num_samples duration sample_rate)%Z ->
  (36 + 2 * num_samples duration sample_rate < 4294967296)%Z ->
  exists k p,
    kick_click gauss duration sample_rate base_freq decay = Ok k /\
    Z.of_nat (length k) = num_samples duration sample_rate /\
    peak k = Ok p /\ 0 < p /\
    generate_kick gauss duration sample_rate base_freq decay filename
    = Wrote filename (expected_file sample_rate (kick_int (map (fun x => x / p) k))) /\
    Z.of_nat (length (expected_file sample_rate (kick_int (map (fun x => x / p) k))))
    = (44 + 2 * num_samples duration sample_rate)%Z /\
    reader.decode (expected_file sample_rate (kick_int (map (fun x => x / p) k)))
    = Some (sample_rate, kick_int (map (fun x => x / p) k)) /\
    (1 <= peak_frames (kick_int (map (fun x => (x / p)%R) k)))%nat.
Proof.
  intros Hd Hb Hdec Hny Hsr Hroom Hfit.
  assert (Hsr0 : (0 < sample_rate)%Z) by (apply lt_IZR; lra).
  pose proof (click_samples_nonneg sample_rate ltac:(lia)) as Hcs.
  destruct (kick_click_ok gauss duration sample_rate base_freq decay) as [k Hk]; [lia |].
  pose proof (kick_click_length _ _ _ _ _ _ Hk) as L.
  assert (Lk : Z.of_nat (length k) = num_samples duration sample_rate) by lia.
  pose proof (kick_click_not_silent _ _ _ _ _ _ Hd Hb Hny Hroom Hk) as Hnz.
  destruct (peak_nonempty k) as [p Hp].
  { intros ->. inversion Hnz. }
  pose proof (peak_positive k p Hp Hnz) as Hpos.
  assert (Lf : Z.of_nat (length (kick_int (map (fun x => x / p) k)))
               = num_samples duration sample_rate).
  { unfold kick_int. rewrite !length_map. exact Lk. }
  exists k, p. repeat (split; [assumption |]).
  split; [| split; [| split]].
  - apply generate_kick_wrote; try assumption; lia.
  - rewrite expected_file_length. lia.
  - apply decode_expected_file; lia.
  - apply peak_frames_positive; assumption.
Qed.



Lemma script_call (gauss : nat -> R) (base_freq decay : R) (filename : string) :
  0 < base_freq -> 2 * base_freq < 44100 -> 0 < decay ->
  exists content frames,
    generate_kick gauss 0.5 44100 base_freq decay filename = Wrote filename content /\
    Z.of_nat (length content) = 44144%Z /\
    reader.decode content = Some (44100%Z, frames) /\
    Z.of_nat (length frames) = 22050%Z /\
    (1 <= peak_frames frames)%nat.
Proof.
  intros Hb Hny Hdec.
  destruct (generate_kick_succeeds_aux gauss 0.5 44100 base_freq decay filename)
    as [k [p [_ [Lk [_ [_ [W [L [D F]]]]]]]]];
    try lra; try lia;
    try (rewrite ?click_samples_44100, num_samples_kick1; lia).
  rewrite num_samples_kick1 in L, Lk.
  exists (expected_file 44100 (kick_int (map (fun x => x / p) k))),
         (kick_int (map (fun x => x / p) k)).
  split; [exact W |]. split; [lia |]. split; [exact D |]. split; [| exact F].
  unfold kick_int. rewrite !length_map. exact Lk.
Qed.

(** X19. The script, whatever the generator hands out: none of the four calls
    raises, so all four run; each writes a file of 44144 bytes holding 22050
    frames at 44100 Hz with at least one frame at full scale, and the four
    names, kick1.wav to kick4.wav under the output directory, are distinct, so
    no call overwrites the file of another. *)
Theorem main_writes_four_files (gauss : nat -> R) :
  exists outcomes,
    main gauss = outcomes /\
    map written_name outcomes
    = [Some "app/src/main/res/raw/kick1.wav"%string;
       Some "app/src/main/res/raw/kick2.wav"%string;
       Some "app/src/main/res/raw/kick3.wav"%string;
       Some "app/src/main/res/raw/kick4.wav"%string] /\
    NoDup (map written_name outcomes) /\
    Forall (fun o => exists filename content frames,
              o = Wrote filename content /\
              Z.of_nat (length content) = 44144%Z /\
              reader.decode content = Some (44100%Z, frames) /\
              Z.of_nat (length frames) = 22050%Z /\
              (1 <= peak_frames frames)%nat) outcomes.
Proof.
  unfold main.
  set (g2 := shift (draws_used 44100) gauss).
  set (g3 := shift (draws_used 44100) g2).
  set (g4 := shift (draws_used 44100) g3).
  destruct (script_call gauss 55 0.4 (output_dir ++ "/kick1.wav"))
    as [c1 [f1 [W1 P1]]]; try lra.
  destruct (script_call g2 70 0.25 (output_dir ++ "/kick2.wav"))
    as [c2 [f2 [W2 P2]]]; try lra.
  destruct (script_call g3 85 0.2 (output_dir ++ "/kick3.wav"))
    as [c3 [f3 [W3 P3]]]; try lra.
  destruct (script_call g4 50 0.5 (output_dir ++ "/kick4.wav"))
    as [c4 [f4 [W4 P4]]]; try lra.
  unfold kick1, kick2, kick3, kick4. rewrite W1, W2, W3, W4.
  eexists. split; [reflexivity |].
  cbn [run_calls aborts map written_name].
  split; [reflexivity |]. split.
  - repeat constructor; cbn [In]; intuition discriminate.
  - repeat constructor; eexists _, _, _; (split; [reflexivity | eassumption]).
Qed.

(** ** Two facts about timing *)

(** X20. With two samples or more, consecutive times of the axis are more than
    one sample period apart: the axis includes the end point, so its step
    [duration / (N - 1)] exceeds [1 / sample_rate]. *)
Theorem time_step_exceeds_sample_period
    (duration : R) (sample_rate : Z) (tt : list R) (i : nat) :
  0 < duration -> (0 < sample_rate)%Z ->
  t duration sample_rate = Ok tt -> (S i < length tt)%nat ->
  nth (S i) tt 0 - nth i tt 0 = duration / INR (length tt - 1) /\
  / IZR sample_rate < nth (S i) tt 0 - nth i tt 0.
Proof.
  intros Hd Hsr Ht Hi.
  pose proof (t_length _ _ _ Ht) as L.
  destruct (num_samples_is_floor duration sample_rate Hd Hsr) as [HN [Hlo _]].
  apply IZR_lt in Hsr.
  set (n := length tt) in *.
  assert (Hn1 : 0 < INR (n - 1)) by (apply lt_0_INR; lia).
  assert (Estep : nth (S i) tt 0 - nth i tt 0 = duration / INR (n - 1)).
  { rewrite (t_nth _ _ _ (S i) Ht), (t_nth _ _ _ i Ht) by (fold n; lia).
    fold n. rewrite S_INR. lra. }
  split; [exact Estep |]. rewrite Estep.
  assert (HNn : IZR (num_samples duration sample_rate) = INR n).
  { rewrite INR_IZR_INZ. f_equal. lia. }
  rewrite HNn in Hlo.
  assert (Hn : INR n = INR (n - 1) + 1).
  { rewrite <- S_INR. f_equal. lia. }
  apply (Rmult_lt_reg_r (IZR sample_rate * INR (n - 1))).
  - apply Rmult_lt_0_compat; assumption.
  - replace (/ IZR sample_rate * (IZR sample_rate * INR (n - 1)))
      with (INR (n - 1)) by (field; lra).
    replace (duration / INR (n - 1) * (IZR sample_rate * INR (n - 1)))
      with (IZR sample_rate * duration) by (field; lra).
    lra.
Qed.

Lemma time_step_exceeds_sample_period_witness :
  let tt := np.linspace_nat 0 0.5 (Z.to_nat (num_samples 0.5 44100)) in
  0 < 0.5 /\ (0 < 44100)%Z /\ t 0.5 44100 = Ok tt /\ (1 < length tt)%nat /\
  / IZR 44100 < nth 1 tt 0 - nth 0 tt 0.
Proof.
  intros tt.
  assert (Ht : t 0.5 44100 = Ok tt) by (apply t_ok; rewrite num_samples_kick1; lia).
  assert (Hl : (1 < length tt)%nat).
  { unfold tt. rewrite linspace_nat_length, num_samples_kick1. lia. }
  split; [lra |]. split; [lia |]. split; [exact Ht |]. split; [exact Hl |].
  apply (time_step_exceeds_sample_period 0.5 44100 tt 0 ltac:(lra) ltac:(lia) Ht Hl).
Defined.

(** X21. When the click has at least one sample and fits, the first sample of
    the buffer before normalization is [sin(2 pi base_freq / sample_rate)]
    plus [0.3] times the first deviate: the tone does not start at phase zero
    and the click starts at full weight. *)
Theorem first_sample
    (gauss : nat -> R) (duration : R) (sample_rate : Z) (base_freq decay : R)
    (k : list R) :
  0 < duration -> 0 < base_freq -> decay <> 0 ->
  (1 <= click_samples sample_rate <= num_samples duration sample_rate)%Z ->
  kick_click gauss duration sample_rate base_freq decay = Ok k ->
  nth 0 k 0 = sin (2 * PI * base_freq / IZR sample_rate) + 0.3 * gauss 0%nat.
Proof.
  intros Hd Hb Hdec Hcs Hk.
  destruct (kick_click_inv _ _ _ _ _ _ Hk) as [tt [c [Ht [Hc Hadd]]]].
  pose proof (t_length _ _ _ Ht) as L.
  destruct (click_inv _ _ _ Hc) as [_ Lc].
  destruct (click_ok gauss sample_rate ltac:(lia)) as [c' [Hc' [_ Nc]]].
  rewrite Hc in Hc'. injection Hc' as <-.
  assert (H0 : (0 < length tt)%nat) by lia.
  rewrite (iadd_prefix_inside _ _ _ _ 0 Hadd Lc) by (rewrite ?kick_length; lia).
  rewrite Nc by lia. rewrite kick_nth by exact H0.
  assert (Et0 : nth 0 tt 0 = 0).
  { rewrite (t_nth _ _ _ 0 Ht) by exact H0. simpl. lra. }
  rewrite Et0.
  assert (Ec0 : nth 0 (np.cumsum (freq duration base_freq tt)) 0 = base_freq).
  { unfold np.cumsum. destruct tt as [| t0 tt']; [simpl in H0; lia |].
    simpl in Et0. subst t0. simpl. rewrite freq_at_0. lra. }
  rewrite Ec0.
  rewrite linspace0_nth by lia. simpl.
  replace (- 0 / decay) with 0 by (unfold Rdiv; lra).
  replace (- (0 * (10 / INR (Z.to_nat (click_samples sample_rate) - 1)))) with 0 by lra.
  rewrite exp_0. lra.
Qed.

Lemma first_sample_witness :
  exists k,
    0 < 0.5 /\ 0 < 55 /\ 0.4 <> 0 /\
    (1 <= click_samples 44100 <= num_samples 0.5 44100)%Z /\
    kick_click (fun _ => 1) 0.5 44100 55 0.4 = Ok k /\
    nth 0 k 0 = sin (2 * PI * 55 / IZR 44100) + 0.3 * 1.
Proof.
  destruct (kick1_buffer (fun _ => 1)) as [k [Hk _]].
  assert (H : (1 <= click_samples 44100 <= num_samples 0.5 44100)%Z)
    by (rewrite click_samples_44100, num_samples_kick1; lia).
  exists k. split; [lra |]. split; [lra |]. split; [lra |]. split; [exact H |].
  split; [exact Hk |].
  apply (first_sample (fun _ => 1) 0.5 44100 55 0.4 k
           ltac:(lra) ltac:(lra) ltac:(lra) H Hk).
Defined.

(** ** A negative decay: the envelope grows *)

Lemma kick1_shape (gauss : nat -> R) (base_freq decay : R) :
  exists k, kick_click gauss 0.5 44100 base_freq decay = Ok k /\
            Z.of_nat (length k) = 22050%Z.
Proof.
  destruct (kick_click_ok gauss 0.5 44100 base_freq decay) as [k Hk].
  { rewrite num_samples_kick1, click_samples_44100. lia. }
  exists k. split; [exact Hk |].
  rewrite (kick_click_length _ _ _ _ _ _ Hk), num_samples_kick1. lia.
Qed.

Lemma exp_INR (n : nat) : exp (INR n) = exp 1 ^ n.
Proof.
  induction n as [| n IH]; [simpl; apply exp_0 |].
  rewrite S_INR, exp_plus, IH. simpl. ring.
Qed.

Lemma max_float_lt_exp_5000 : max_float < exp 5000.
Proof.
  assert (H2 : 2 < exp 1) by (pose proof (exp_ineq1 1 ltac:(lra)); lra).
  assert (Hpow : 2 ^ 1024 <= exp 1 ^ 1024) by (apply pow_incr; lra).
  assert (Hmf : max_float < 2 ^ 1024).
  { unfold max_float. change (2 ^ 1024) with (2 * 2 ^ 1023).
    assert (0 < 2 ^ 1023) by (apply pow_lt; lra).
    assert (0 < / 2 ^ 52) by (apply Rinv_0_lt_compat, pow_lt; lra).
    nra. }
  assert (Hexp : exp (INR 1024) < exp 5000).
  { apply exp_increasing. rewrite INR_IZR_INZ.
    change (Z.of_nat 1024) with 1024%Z. lra. }
  rewrite exp_INR in Hexp. lra.
Qed.

(** With [decay = -0.0001] the envelope reaches [exp(5000)], beyond the
    binary64 range: numpy carries an infinity and the call writes a file
    whose samples are not those of the real-number formula. *)
Lemma negative_decay_overflows (gauss : nat -> R) (filename : string) :
  envelope_overflows 0.5 44100 (-0.0001) = true /\
  generate_kick gauss 0.5 44100 55 (-0.0001) filename = NonFinite filename.
Proof.
  assert (Hov : envelope_overflows 0.5 44100 (-0.0001) = true).
  { unfold envelope_overflows.
    rewrite t_ok by (rewrite num_samples_kick1; lia).
    rewrite num_samples_kick1. set (n := Z.to_nat 22050).
    apply existsb_exists.
    exists (exp (- nth (n - 1) (np.linspace_nat 0 0.5 n) 0 / -0.0001)). split.
    - unfold envelope.
      apply (in_map (fun ti => exp (- ti / -0.0001))).
      apply nth_In. rewrite linspace_nat_length. unfold n. lia.
    - rewrite linspace0_last by (unfold n; lia).
      replace (- (0.5) / -0.0001) with 5000 by lra.
      destruct (Rlt_dec max_float (exp 5000)) as [_ | C]; [reflexivity |].
      exfalso. apply C. exact max_float_lt_exp_5000. }
  split; [exact Hov |].
  destruct (kick1_shape gauss 55 (-0.0001)) as [k [Hk Lk]].
  destruct (peak_nonempty k) as [p Hp].
  { intros ->. simpl in Lk. lia. }
  unfold generate_kick. rewrite Hk. cbn [bind]. unfold normalize.
  rewrite Hp. cbn [bind].
  destruct (write_wav_ok 44100 (kick_int (map (fun x => x / p) k))) as [wav [Ew _]];
    [lia | unfold kick_int; rewrite !length_map; lia |].
  rewrite Ew. unfold finite.
  destruct k as [| x k']; [simpl in Lk; lia |].
  destruct (Req_dec_T (-0.0001) 0) as [C | _]; [lra |].
  rewrite Hov. reflexivity.
Qed.
